(** * Replay buffers of [ilkit.util.buffer]

    A shallow embedding of [src/ilkit/util/buffer.py]: the two classes
    [TransitionBuffer] and [DAggerBuffer], their storage (a list of torch
    tensors grown by [th.cat] and overwritten in place), the counters
    [ptr], [size] and [total_size], and the operations [clear],
    [insert_transition], [insert_batch], [insert_dataset] and [sample].

    Python integers are [Z].  A Python exception is a value of [exn]; since
    an exception leaves behind whatever the method had already written to
    [self], every method is a function from the object to a result
    together with the object as the call leaves it. *)

From Stdlib Require Import ZArith Lia.
From stdpp Require Import base list gmap strings.

Local Open Scope Z_scope.

(** ** Exceptions and dtypes *)

Inductive exn : Type :=
  | AssertionError
  | IndexError
  | KeyError
  | OverflowError
  | RuntimeError
  | TypeError
  | ValueError
  | ZeroDivisionError.

(** The dtypes a caller can hand to the constructor; the buffers accept
    [np.int64] and [np.float32] only. *)
Inductive dtype : Type :=
  | np_int64
  | np_float32
  | np_float64.

Global Instance dtype_eq_dec : EqDecision dtype.
Proof. solve_decision. Defined.

Global Instance exn_eq_dec : EqDecision exn.
Proof. solve_decision. Defined.

(** Array elements.  [np.array(x, dtype=d)] converts every element to [d],
    or raises on an element it cannot convert (a Python integer outside
    the range of [np.int64], an object that is no number).  The conversion
    is the only thing the buffers need from the element type, so it is
    kept abstract: [cast_error d v] is the exception that converting [v]
    to [d] raises, if it raises, and [cast d v] is the converted element
    when it does not. *)
Class Numeric (elt : Type) := {
  cast : dtype → elt → elt;
  cast_error : dtype → elt → option exn
}.

(** [sys.maxsize] of a 64-bit CPython. *)
Definition sys_maxsize : Z := 2 ^ 63 - 1.

(** Python's [a % b] on integers: the result has the sign of [b], and
    [b = 0] raises. *)
Definition py_mod (a b : Z) : exn + Z :=
  if decide (b = 0) then inl ZeroDivisionError else inr (a `mod` b).

(** [list(range(n))]. *)
Definition py_range (n : Z) : list Z :=
  Z.of_nat <$> seq 0 (Z.to_nat n).

(** [l[:b]] for a list and an integer bound. *)
Definition py_slice_to {A} (l : list A) (b : Z) : list A :=
  if decide (0 ≤ b) then take (Z.to_nat b) l
  else take (Z.to_nat (Z.of_nat (length l) + b)) l.

(** Index normalisation of a sequence of length [n]: negative indices
    count from the end, anything outside [-n, n) is an [IndexError]. *)
Definition norm_index (n : nat) (i : Z) : exn + nat :=
  if decide (0 ≤ i < Z.of_nat n) then inr (Z.to_nat i)
  else if decide (- Z.of_nat n ≤ i < 0) then inr (Z.to_nat (i + Z.of_nat n))
  else inl IndexError.

(** ** Arrays and tensors *)

Section Tensors.
Context {elt : Type}.

(** A single item: a numpy array, or the torch tensor made from it, with
    its shape and its elements in row-major order.  A Python scalar is
    the array of shape [()]. *)
Record ndarray : Type := NdArray { shape : list nat; data : list elt }.

(** A torch tensor of at least one dimension, seen along dimension 0:
    its shape is [(length rows,) + row_shape] and [rows] holds the
    row-major elements of each row. *)
Record tensor : Type := Tensor { row_shape : list nat; rows : list (list elt) }.

Definition tensor_shape (t : tensor) : list nat :=
  length (rows t) :: row_shape t.

(** [th.zeros((0,) + s)]. *)
Definition th_zeros0 (s : list nat) : tensor :=
  {| row_shape := s; rows := [] |}.

(** [th.unsqueeze(x, dim=0)]. *)
Definition th_unsqueeze0 (x : ndarray) : tensor :=
  {| row_shape := shape x; rows := [data x] |}.

(** The list [[x]] as an array: the elements of [x] under one more
    leading dimension, of size 1. *)
Definition wrap1 (x : ndarray) : ndarray :=
  {| shape := 1%nat :: shape x; data := data x |}.

(** torch skips a 1-D empty tensor, of shape [(0,)], when concatenating. *)
Definition cat_skipped (t : tensor) : bool :=
  bool_decide (tensor_shape t = [0%nat]).

(** [th.cat((a, b), dim=0)]: the tensors not skipped must agree on
    every dimension but the first. *)
Definition th_cat (a b : tensor) : exn + tensor :=
  if cat_skipped a then inr b
  else if cat_skipped b then inr a
  else if decide (row_shape a = row_shape b)
       then inr {| row_shape := row_shape a; rows := rows a ++ rows b |}
       else inl RuntimeError.

(** [chunks k n xs]: the [k] consecutive blocks of [n] elements of
    [xs]. *)
Definition chunks (k n : nat) (xs : list elt) : list (list elt) :=
  (λ i, take n (drop (i * n) xs)) <$> seq 0 k.

(** Broadcasting of a value of shape [src] to shape [dst] (torch's
    [expand]): the shapes are aligned on the right, the source has no
    more dimensions than the target, and a dimension of the source is
    kept when it equals the target's and repeated when it is 1. *)
Fixpoint expand (src dst : list nat) (xs : list elt) : option (list elt) :=
  match dst with
  | [] => match src with [] => Some xs | _ :: _ => None end
  | d :: dst' =>
      if decide (length src ≤ length dst')%nat then
        r ← expand src dst' xs; Some (mjoin (replicate d r))
      else
        match src with
        | [] => None
        | a :: src' =>
            if decide (length src' ≠ length dst') then None
            else if decide (a = d) then
              rs ← mapM (expand src' dst') (chunks a (foldr Nat.mul 1%nat src') xs);
              Some (mjoin rs)
            else if decide (a = 1%nat) then
              r ← expand src' dst' xs; Some (mjoin (replicate d r))
            else None
        end
  end.

(** The leading dimensions of size 1 that [setitem] drops from the
    value before broadcasting it. *)
Fixpoint strip_ones (s : list nat) : list nat :=
  match s with
  | 1%nat :: s' => strip_ones s'
  | _ => s
  end.

(** [t[i] = v] for an integer [i]: in place, with the value broadcast to
    the row. *)
Definition setitem (t : tensor) (i : Z) (v : ndarray) : exn + tensor :=
  match norm_index (length (rows t)) i with
  | inl e => inl e
  | inr k =>
      if decide (shape v = row_shape t)
      then inr {| row_shape := row_shape t; rows := <[k := data v]> (rows t) |}
      else match expand (strip_ones (shape v)) (row_shape t) (data v) with
           | Some r => inr {| row_shape := row_shape t; rows := <[k := r]> (rows t) |}
           | None => inl RuntimeError
           end
  end.

(** [t[idx]] for a list of integers: a new tensor holding the rows at
    those indices, in the order of [idx]. *)
Fixpoint gather_rows (rs : list (list elt)) (idx : list Z) : exn + list (list elt) :=
  match idx with
  | [] => inr []
  | i :: idx' =>
      match norm_index (length rs) i with
      | inl e => inl e
      | inr k =>
          match rs !! k, gather_rows rs idx' with
          | Some r, inr out => inr (r :: out)
          | None, _ => inl IndexError
          | _, inl e => inl e
          end
      end
  end.

Definition getitem_list (t : tensor) (idx : list Z) : exn + tensor :=
  match gather_rows (rows t) idx with
  | inl e => inl e
  | inr rs => inr {| row_shape := row_shape t; rows := rs |}
  end.

End Tensors.

Arguments ndarray : clear implicits.
Arguments tensor : clear implicits.

(** ** The buffer object and its methods *)

Section Buffer.
Context {elt : Type} `{!Numeric elt}.

(** The attributes of a [TransitionBuffer] or a [DAggerBuffer]. *)
Record buffer : Type := Buffer {
  state_shape : list nat;
  action_shape : list nat;
  action_dtype : dtype;
  device : string;
  buffer_size : Z;
  buffers : list (tensor elt);
  ptr : Z;
  size : Z;
  total_size : Z
}.

(** A method body: from [self] to a result or an exception, and [self]
    as the body leaves it. *)
Definition M (A : Type) : Type := buffer → (exn + A) * buffer.

Global Instance M_ret : MRet M := λ A a self, (inr a, self).
Global Instance M_bind : MBind M := λ A B f m self,
  match m self with
  | (inl e, self') => (inl e, self')
  | (inr a, self') => f a self'
  end.

(** Sequencing of computations that can raise and touch no object. *)
Global Instance exn_ret : MRet (sum exn) := λ A a, inr a.
Global Instance exn_bind : MBind (sum exn) := λ A B f m,
  match m with
  | inl e => inl e
  | inr a => f a
  end.

Definition get_self : M buffer := λ self, (inr self, self).
Definition raise {A} (e : exn) : M A := λ self, (inl e, self).
Definition lift {A} (r : exn + A) : M A := λ self, (r, self).

(** Attribute assignment. *)
Definition with_buffers (self : buffer) (bs : list (tensor elt)) : buffer :=
  Buffer (state_shape self) (action_shape self) (action_dtype self) (device self)
         (buffer_size self) bs (ptr self) (size self) (total_size self).
Definition with_ptr (self : buffer) (p : Z) : buffer :=
  Buffer (state_shape self) (action_shape self) (action_dtype self) (device self)
         (buffer_size self) (buffers self) p (size self) (total_size self).
Definition with_size (self : buffer) (n : Z) : buffer :=
  Buffer (state_shape self) (action_shape self) (action_dtype self) (device self)
         (buffer_size self) (buffers self) (ptr self) n (total_size self).
Definition with_total_size (self : buffer) (n : Z) : buffer :=
  Buffer (state_shape self) (action_shape self) (action_dtype self) (device self)
         (buffer_size self) (buffers self) (ptr self) (size self) n.

Definition set_buffers (bs : list (tensor elt)) : M unit :=
  λ self, (inr (), with_buffers self bs).
Definition set_ptr (p : Z) : M unit := λ self, (inr (), with_ptr self p).
Definition set_size (n : Z) : M unit := λ self, (inr (), with_size self n).
Definition set_total_size (n : Z) : M unit :=
  λ self, (inr (), with_total_size self n).

(** A [for] loop over a list, and a list comprehension whose body can
    raise. *)
Fixpoint for_each {A} (body : A → M unit) (l : list A) : M unit :=
  match l with
  | [] => mret ()
  | a :: l' => body a;; for_each body l'
  end.

Fixpoint map_exn {A B} (f : A → exn + B) (l : list A) : exn + list B :=
  match l with
  | [] => inr []
  | a :: l' =>
      match f a with
      | inl e => inl e
      | inr b => match map_exn f l' with
                 | inl e => inl e
                 | inr bs => inr (b :: bs)
                 end
      end
  end.

(** [l[i]] for [i] taken from a [range]. *)
Definition getitem {A} (l : list A) (i : nat) : M A :=
  match l !! i with
  | Some a => mret a
  | None => raise IndexError
  end.

(** [d[k]] on a dict. *)
Definition dict_get {V} (d : gmap string V) (k : string) : M V :=
  match d !! k with
  | Some v => mret v
  | None => raise KeyError
  end.

(** The exception of the first element, in row-major order, that does
    not convert. *)
Fixpoint first_error (f : elt → option exn) (xs : list elt) : option exn :=
  match xs with
  | [] => None
  | v :: xs' => match f v with
                | Some e => Some e
                | None => first_error f xs'
                end
  end.

(** The array of the converted elements. *)
Definition converted (d : dtype) (x : ndarray elt) : ndarray elt :=
  {| shape := shape x; data := cast d <$> data x |}.

(** [np.array(x, dtype=d)]: it raises when an element does not convert,
    and returns the converted array otherwise. *)
Definition np_array (d : dtype) (x : ndarray elt) : exn + ndarray elt :=
  match first_error (cast_error d) (data x) with
  | Some e => inl e
  | None => inr (converted d x)
  end.

(** The growing branch of [insert_transition]: the list comprehension
    builds every concatenation before [self.buffers] is assigned. *)
Definition append_all (new_transition : list (ndarray elt)) : M unit :=
  self ← get_self;
  bs ← lift (map_exn
               (λ i, match buffers self !! i, new_transition !! i with
                     | Some b, Some x => th_cat b (th_unsqueeze0 x)
                     | _, _ => inl IndexError
                     end)
               (seq 0 (length new_transition)));
  set_buffers bs.

(** The overwriting branch: the loop over [zip(self.buffers,
    new_transition)] writes row [self.ptr] of one tensor after the
    other, in place; [i] is the position of [bs] in [self.buffers]. *)
Fixpoint overwrite (i : nat) (bs : list (tensor elt)) (news : list (ndarray elt))
  : M unit :=
  match bs, news with
  | b :: bs', new_data :: news' =>
      self ← get_self;
      b' ← lift (setitem b (ptr self) new_data);
      set_buffers (<[i := b']> (buffers self));;
      overwrite (S i) bs' news'
  | _, _ => mret ()
  end.

(** [insert_transition] from the test on [total_size] on (lines 53-65 of
    [TransitionBuffer], 163-175 of [DAggerBuffer], which are the same
    text). *)
Definition store (new_transition : list (ndarray elt)) : M unit :=
  self ← get_self;
  (if decide (total_size self ≤ buffer_size self)
   then append_all new_transition
   else overwrite 0 (buffers self) new_transition);;
  self ← get_self;
  p ← lift (py_mod (ptr self + 1) (buffer_size self));
  set_ptr p;;
  self ← get_self;
  set_size (Z.min (size self + 1) (buffer_size self));;
  self ← get_self;
  set_total_size (total_size self + 1).

(** [random.shuffle(x)]: for [i] from [len(x) - 1] down to 1, exchange
    [x[i]] with [x[j]] for [j = randbelow(i + 1)].  The generator is a
    sequence [rng] of raw draws; the [k]-th call of [randbelow(n)]
    returns [rng k mod n]. *)
Definition swap {A} (x : list A) (i j : nat) : list A :=
  match x !! i, x !! j with
  | Some xi, Some xj => <[j := xi]> (<[i := xj]> x)
  | _, _ => x
  end.

Fixpoint shuffle_from {A} (rng : nat → nat) (k i : nat) (x : list A) : list A :=
  match i with
  | O => x
  | S i' => shuffle_from rng (S k) i' (swap x i (rng k `mod` (i + 1))%nat)
  end.

Definition random_shuffle {A} (rng : nat → nat) (x : list A) : list A :=
  shuffle_from rng 0 (length x - 1) x.

(** The index list [idx] that [sample] builds (lines 99-103 and
    188-192) from [self.size]. *)
Definition sample_idx (rng : nat → nat) (batch_size : option Z) (shuffle : bool)
    (size : Z) : list Z :=
  let idx := py_range size in
  let idx := if shuffle then random_shuffle rng idx else idx in
  match batch_size with
  | Some b => py_slice_to idx b
  | None => idx
  end.

(** [sample] (lines 94-105 of [TransitionBuffer], 183-194 of
    [DAggerBuffer], the same text). *)
Definition sample (rng : nat → nat) (batch_size : option Z) (shuffle : bool)
  : M (list (tensor elt)) :=
  self ← get_self;
  let idx := sample_idx rng batch_size shuffle (size self) in
  lift (map_exn (λ buffer, getitem_list buffer idx) (buffers self)).

(** The object [__init__] has built when it calls [self.clear()]. *)
Definition fresh (state_shape action_shape : list nat) (action_dtype : dtype)
    (device : string) (buffer_size : Z) : buffer :=
  {| state_shape := state_shape; action_shape := action_shape;
     action_dtype := action_dtype; device := device;
     buffer_size := if decide (buffer_size ≠ -1) then buffer_size else sys_maxsize;
     buffers := []; ptr := 0; size := 0; total_size := 0 |}.

(** [assert action_dtype in [np.int64, np.float32]]. *)
Definition supported (d : dtype) : bool :=
  bool_decide (d = np_int64 ∨ d = np_float32).

End Buffer.

Arguments buffer : clear implicits.
Arguments M : clear implicits.

Module TransitionBuffer.
Section Methods.
Context {elt : Type} `{!Numeric elt}.

Definition clear : M elt unit :=
  self ← get_self;
  let state_shape := state_shape self in
  let action_shape :=
    if decide (action_dtype self = np_int64) then [1%nat] else action_shape self in
  set_buffers [ th_zeros0 state_shape;   (* state_buffer *)
                th_zeros0 action_shape;  (* action_buffer *)
                th_zeros0 state_shape;   (* next_state_buffer *)
                th_zeros0 [1%nat];       (* reward_buffer *)
                th_zeros0 [1%nat] ];;    (* done_buffer *)
  set_ptr 0;;
  set_size 0;;
  set_total_size 0.

Definition init (state_shape action_shape : list nat) (action_dtype : dtype)
    (device : string) (buffer_size : Z) : exn + buffer elt :=
  if supported action_dtype
  then inr (clear (fresh state_shape action_shape action_dtype device buffer_size)).2
  else inl AssertionError.

(** The list [new_transition] that [insert_transition] builds from its
    arguments (lines 42-51).  The arguments are converted in the order of
    the source: state, next state, action, reward, done; the first
    conversion that raises ends the call, before the object is touched. *)
Definition new_transition (self : buffer elt)
    (state action next_state reward done : ndarray elt)
  : exn + list (ndarray elt) :=
  state ← np_array np_float32 state;
  next_state ← np_array np_float32 next_state;
  let action := if decide (action_dtype self = np_int64) then wrap1 action else action in
  action ← np_array (action_dtype self) action;
  reward ← np_array np_float32 (wrap1 reward);
  done ← np_array np_float32 (wrap1 done);
  mret [state; action; next_state; reward; done].

Definition insert_transition (state action next_state reward done : ndarray elt)
  : M elt unit :=
  self ← get_self;
  new_transition ← lift (new_transition self state action next_state reward done);
  store new_transition.

Definition insert_batch (states actions next_states rewards dones : list (ndarray elt))
  : M elt unit :=
  for_each
    (λ i, s ← getitem states i;
          a ← getitem actions i;
          s' ← getitem next_states i;
          r ← getitem rewards i;
          d ← getitem dones i;
          insert_transition s a s' r d)
    (seq 0 (length states)).

Definition insert_dataset (dataset : gmap string (list (ndarray elt))) : M elt unit :=
  observations ← dict_get dataset "observations";
  actions ← dict_get dataset "actions";
  next_observations ← dict_get dataset "next_observations";
  rewards ← dict_get dataset "rewards";
  terminals ← dict_get dataset "terminals";
  insert_batch observations actions next_observations rewards terminals.

(** *** Callers of the buffer *)

(** The arguments of one [insert_transition] call. *)
Record transition : Type := Transition {
  t_state : ndarray elt;
  t_action : ndarray elt;
  t_next_state : ndarray elt;
  t_reward : ndarray elt;
  t_done : ndarray elt
}.

Definition call (t : transition) : M elt unit :=
  insert_transition (t_state t) (t_action t) (t_next_state t) (t_reward t) (t_done t).

(** Sequential [insert_transition] calls, one per element and in order;
    an exception ends the sequence as it ends the caller. *)
Definition insert_each (ts : list transition) : M elt unit := for_each call ts.

(** Row [i] of a five-column bundle, for every [i]. *)
Fixpoint bundle_rows (observations actions next_observations rewards terminals
    : list (ndarray elt)) : list transition :=
  match observations, actions, next_observations, rewards, terminals with
  | s :: ss, a :: aa, s' :: ss', r :: rr, d :: dd =>
      Transition s a s' r d :: bundle_rows ss aa ss' rr dd
  | _, _, _, _, _ => []
  end.

(** The states a caller can bring a buffer to: any number of
    [insert_transition] calls, failed ones included, and of [clear]
    calls. *)
Inductive reachable (b0 : buffer elt) : buffer elt → Prop :=
  | reach_start : reachable b0 b0
  | reach_insert b t : reachable b0 b → reachable b0 (call t b).2
  | reach_clear b : reachable b0 b → reachable b0 (clear b).2.

(** The shape of the rows of the action tensor. *)
Definition action_row_shape (self : buffer elt) : list nat :=
  if decide (action_dtype self = np_int64) then [1%nat] else action_shape self.

(** The shape of the action item as [insert_transition] stores it. *)
Definition action_item_shape (self : buffer elt) (action : ndarray elt) : list nat :=
  if decide (action_dtype self = np_int64) then 1%nat :: shape action else shape action.

(** The row shapes [clear] gives the five tensors. *)
Definition row_shapes (self : buffer elt) : list (list nat) :=
  [state_shape self; action_row_shape self; state_shape self; [1%nat]; [1%nat]].

(** A transition that converts to the dtypes of the buffer and whose five
    items have the row shapes of the buffer. *)
Definition well_shaped (self : buffer elt) (t : transition) : Prop :=
  ∃ news,
    new_transition self (t_state t) (t_action t) (t_next_state t)
      (t_reward t) (t_done t) = inr news
    ∧ shape <$> news = row_shapes self.

(** The rows of the five tensors when the transitions [ts] were appended
    one after the other to empty tensors. *)
Definition columns (self : buffer elt) (ts : list transition)
  : list (list (list elt)) :=
  [ (λ t, cast np_float32 <$> data (t_state t)) <$> ts;
    (λ t, cast (action_dtype self) <$> data (t_action t)) <$> ts;
    (λ t, cast np_float32 <$> data (t_next_state t)) <$> ts;
    (λ t, cast np_float32 <$> data (t_reward t)) <$> ts;
    (λ t, cast np_float32 <$> data (t_done t)) <$> ts ].

End Methods.

Arguments transition : clear implicits.

End TransitionBuffer.

Module DAggerBuffer.
Section Methods.
Context {elt : Type} `{!Numeric elt}.

Definition clear : M elt unit :=
  self ← get_self;
  let state_shape := state_shape self in
  let action_shape :=
    if decide (action_dtype self = np_int64) then [1%nat] else action_shape self in
  set_buffers [ th_zeros0 state_shape;    (* state_buffer *)
                th_zeros0 action_shape ];; (* action_buffer *)
  set_ptr 0;;
  set_size 0;;
  set_total_size 0.

Definition init (state_shape action_shape : list nat) (action_dtype : dtype)
    (device : string) (buffer_size : Z) : exn + buffer elt :=
  if supported action_dtype
  then inr (clear (fresh state_shape action_shape action_dtype device buffer_size)).2
  else inl AssertionError.

(** The list [new_transition] that [insert_transition] builds from its
    arguments (lines 155-161): the state is converted first, then the
    action; a conversion that raises ends the call, before the object is
    touched. *)
Definition new_transition (self : buffer elt) (state action : ndarray elt)
  : exn + list (ndarray elt) :=
  state ← np_array np_float32 state;
  let action := if decide (action_dtype self = np_int64) then wrap1 action else action in
  action ← np_array (action_dtype self) action;
  mret [state; action].

Definition insert_transition (state action : ndarray elt) : M elt unit :=
  self ← get_self;
  new_transition ← lift (new_transition self state action);
  store new_transition.

Definition insert_batch (states actions : list (ndarray elt)) : M elt unit :=
  for_each
    (λ i, s ← getitem states i;
          a ← getitem actions i;
          insert_transition s a)
    (seq 0 (length states)).

(** *** Callers of the buffer *)

Definition call (t : ndarray elt * ndarray elt) : M elt unit :=
  insert_transition t.1 t.2.

Inductive reachable (b0 : buffer elt) : buffer elt → Prop :=
  | reach_start : reachable b0 b0
  | reach_insert b t : reachable b0 b → reachable b0 (call t b).2
  | reach_clear b : reachable b0 b → reachable b0 (clear b).2.

Definition insert_each (ts : list (ndarray elt * ndarray elt)) : M elt unit :=
  for_each call ts.

Definition action_row_shape (self : buffer elt) : list nat :=
  if decide (action_dtype self = np_int64) then [1%nat] else action_shape self.

Definition row_shapes (self : buffer elt) : list (list nat) :=
  [state_shape self; action_row_shape self].

Definition well_shaped (self : buffer elt) (t : ndarray elt * ndarray elt) : Prop :=
  ∃ news, new_transition self t.1 t.2 = inr news
          ∧ shape <$> news = row_shapes self.

(** The rows of the two tensors when the pairs [ts] were appended one
    after the other to empty tensors. *)
Definition columns (self : buffer elt) (ts : list (ndarray elt * ndarray elt))
  : list (list (list elt)) :=
  [ (λ t, cast np_float32 <$> data t.1) <$> ts;
    (λ t, cast (action_dtype self) <$> data t.2) <$> ts ].

End Methods.
End DAggerBuffer.

(** Integer-valued elements for the examples: Python integers.  An
    integer outside the range of [np.int64] does not convert to it, and
    an integer that rounds to no finite double does not convert to a
    float dtype: [np.array] raises [OverflowError].  On the small
    integers that the examples store every conversion is exact, so the
    converted element is the element itself. *)
Global Instance Z_numeric : Numeric Z := {|
  cast := λ _ x, x;
  cast_error := λ d x,
    match d with
    | np_int64 =>
        if decide (- 2 ^ 63 ≤ x < 2 ^ 63) then None else Some OverflowError
    | np_float32 | np_float64 =>
        if decide (Z.abs x < 2 ^ 1024 - 2 ^ 970) then None
        else Some OverflowError
    end
|}.

Definition scalar (x : Z) : ndarray Z := {| shape := []; data := [x] |}.
Definition vec (xs : list Z) : ndarray Z := {| shape := [length xs]; data := xs |}.

(** A transition of the discrete-action example: state [[x]], action 0,
    next state [[x + 1]], reward 1, not done. *)
Definition step (x : Z) : TransitionBuffer.transition Z :=
  TransitionBuffer.Transition (vec [x]) (scalar 0) (vec [x + 1]) (scalar 1) (scalar 0).

(** A [TransitionBuffer] and a [DAggerBuffer] for states of shape [(1,)]
    and discrete actions, of capacity [cap]. *)
Definition tb (cap : Z) : buffer Z :=
  (TransitionBuffer.clear (fresh [1%nat] [] np_int64 "cpu" cap)).2.

Definition dg (cap : Z) : buffer Z :=
  (DAggerBuffer.clear (fresh [1%nat] [] np_int64 "cpu" cap)).2.

Definition pair_of (x : Z) : ndarray Z * ndarray Z := (vec [x], scalar 0).

(** The generator whose draws are all 0. *)
Definition rng0 : nat → nat := λ _, 0%nat.

(** A buffer of capacity 1 after two insertions: it overwrites from the
    next insertion on. *)
Definition tb1_full : buffer Z :=
  (TransitionBuffer.insert_each (step <$> [0; 1]) (tb 1)).2.

(** A transition whose state is the scalar 7 where the states have shape
    [(1,)], and one whose action is an array of two labels. *)
Definition scalar_state : TransitionBuffer.transition Z :=
  TransitionBuffer.Transition (scalar 7) (scalar 0) (vec [8]) (scalar 1) (scalar 0).

Definition two_actions : TransitionBuffer.transition Z :=
  TransitionBuffer.Transition (vec [7]) (vec [1; 2]) (vec [8]) (scalar 1) (scalar 0).

(** A transition whose action label, [2 ** 63], is outside the range of
    [np.int64]. *)
Definition huge_action : TransitionBuffer.transition Z :=
  TransitionBuffer.Transition (vec [7]) (scalar (2 ^ 63)) (vec [8]) (scalar 1) (scalar 0).

(** A [TransitionBuffer] for scalar states, of shape [()], and a
    transition whose state has shape [(2,)]. *)
Definition tb_scalar (cap : Z) : buffer Z :=
  (TransitionBuffer.clear (fresh [] [] np_int64 "cpu" cap)).2.

Definition vector_state : TransitionBuffer.transition Z :=
  TransitionBuffer.Transition (vec [7; 8]) (scalar 0) (vec [8; 9]) (scalar 1) (scalar 0).

(** A dataset bundle of two rows. *)
Definition two_rows : gmap string (list (ndarray Z)) :=
  list_to_map
    [ ("observations", [vec [0]; vec [1]]);
      ("actions", [scalar 0; scalar 1]);
      ("next_observations", [vec [1]; vec [2]]);
      ("rewards", [scalar 1; scalar 1]);
      ("terminals", [scalar 0; scalar 1]) ].

(** The dataset bundle [two_rows] without its rewards. *)
Definition no_rewards : gmap string (list (ndarray Z)) := delete "rewards" two_rows.

(** ** Invariants of the storage *)

Section Invariants.
Context {elt : Type} `{!Numeric elt}.

(** Every tensor of [self.buffers] has [n] rows. *)
Definition leading (b : buffer elt) (n : nat) : Prop :=
  Forall (λ t, length (rows t) = n) (buffers b).

(** What holds of a buffer with [k] fields between two calls.  With a
    capacity of at least 1 the counters follow [total_size]; with any
    other capacity no insertion completes and the counters stay at 0. *)
Record wf (k : nat) (b : buffer elt) : Prop := {
  wf_fields : length (buffers b) = k;
  wf_rows : ∃ n, leading b n
            ∧ (1 ≤ buffer_size b →
                 Z.of_nat n = Z.min (total_size b) (buffer_size b + 1))
            ∧ (buffer_size b < 0 → n = 0%nat);
  wf_counters : 1 ≤ buffer_size b →
                0 ≤ total_size b
                ∧ size b = Z.min (total_size b) (buffer_size b)
                ∧ ptr b = total_size b `mod` buffer_size b;
  wf_stuck : buffer_size b ≤ 0 → size b = 0 ∧ total_size b = 0 ∧ ptr b = 0
}.

(** Two tensors with the same row shape and the same number of rows. *)
Definition same_layout (t t' : tensor elt) : Prop :=
  row_shape t' = row_shape t ∧ length (rows t') = length (rows t).

(** The update of the pointer and of the sizes (lines 62-65), as one
    function of the object. *)
Definition advance (b : buffer elt) : (exn + unit) * buffer elt :=
  match py_mod (ptr b + 1) (buffer_size b) with
  | inl e => (inl e, b)
  | inr p => (inr (),
              with_total_size
                (with_size (with_ptr b p) (Z.min (size b + 1) (buffer_size b)))
                (total_size b + 1))
  end.

(** Two objects built with the same construction parameters. *)
Definition same_params (b b' : buffer elt) : Prop :=
  state_shape b' = state_shape b ∧ action_shape b' = action_shape b
  ∧ action_dtype b' = action_dtype b ∧ device b' = device b
  ∧ buffer_size b' = buffer_size b.

(** The tensors have the row shapes [shapes], where a row shape is not
    [()]: torch lets a tensor of shape [(0,)] take the row shape of the
    first row concatenated to it. *)
Definition shaped (shapes : list (list nat)) (b : buffer elt) : Prop :=
  Forall2 (λ t s, s ≠ [] → row_shape t = s) (buffers b) shapes.

(** Two tensors that differ at most in row [p]: same row shape, same
    number of rows, same rows elsewhere. *)
Definition same_but_row (p : Z) (t t' : tensor elt) : Prop :=
  row_shape t' = row_shape t ∧ length (rows t') = length (rows t)
  ∧ ∀ j : nat, Z.of_nat j ≠ p → rows t' !! j = rows t !! j.

(** The index list of [sample] as slot numbers: [sample_idx] on a
    non-negative [size], read as naturals. *)
Definition sample_slots (rng : nat → nat) (batch_size : option Z) (shuffle : bool)
    (n : nat) : list nat :=
  let idx := seq 0 n in
  let idx := if shuffle then random_shuffle rng idx else idx in
  match batch_size with
  | Some b => py_slice_to idx b
  | None => idx
  end.

(** [out] holds, for every tensor of [ts] and in the same order, the rows
    of that tensor at the slots [idx]. *)
Definition gathered (idx : list nat) (ts out : list (tensor elt)) : Prop :=
  Forall2 (λ t t', row_shape t' = row_shape t
                   ∧ Forall2 (λ i r, rows t !! i = Some r) idx (rows t'))
          ts out.

(** The items of [new_transition] when every conversion succeeds, for the
    arguments of a [TransitionBuffer] call and of a [DAggerBuffer] call. *)
Definition tb_items (b : buffer elt) (t : TransitionBuffer.transition elt)
  : list (ndarray elt) :=
  [ converted np_float32 (TransitionBuffer.t_state t);
    converted (action_dtype b)
      (if decide (action_dtype b = np_int64)
       then wrap1 (TransitionBuffer.t_action t) else TransitionBuffer.t_action t);
    converted np_float32 (TransitionBuffer.t_next_state t);
    converted np_float32 (wrap1 (TransitionBuffer.t_reward t));
    converted np_float32 (wrap1 (TransitionBuffer.t_done t)) ].

Definition dagger_items (b : buffer elt) (t : ndarray elt * ndarray elt)
  : list (ndarray elt) :=
  [ converted np_float32 t.1;
    converted (action_dtype b)
      (if decide (action_dtype b = np_int64) then wrap1 t.2 else t.2) ].

End Invariants.

(** * Properties *)

(** The transitions of an example list convert and have the row shapes of
    the example buffer: by evaluation, one transition at a time. *)
Ltac examples_well_shaped :=
  repeat (apply Forall_cons_2;
          [eexists; split; [vm_compute; reflexivity|vm_compute; reflexivity]|]);
  apply Forall_nil_2.

(** ** Tensor operations *)

Section TensorFacts.
Context {elt : Type}.
Implicit Types (t : tensor elt) (x : ndarray elt).

Lemma norm_index_lt n i k : norm_index n i = inr k → (k < n)%nat.
Proof.
  unfold norm_index. repeat case_decide; intros [= <-]; lia.
Qed.

Lemma norm_index_nat n (k : nat) : (k < n)%nat → norm_index n (Z.of_nat k) = inr k.
Proof.
  intros Hk. unfold norm_index. case_decide; [|lia]. by rewrite Nat2Z.id.
Qed.

Lemma norm_index_empty i : norm_index 0 i = inl IndexError.
Proof. unfold norm_index. repeat case_decide; try lia; done. Qed.

Lemma unsqueeze_not_skipped x : cat_skipped (th_unsqueeze0 x) = false.
Proof. by apply bool_decide_eq_false. Qed.

Lemma cat_skipped_true t : cat_skipped t = true → rows t = [] ∧ row_shape t = [].
Proof.
  intros [=Hl ->]%bool_decide_eq_true. split; [|done].
  by apply nil_length_inv.
Qed.

(** A successful [th.cat((t, unsqueeze(x)))] adds the row [x] after
    the rows of [t]. *)
Lemma th_cat_rows t x t' :
  th_cat t (th_unsqueeze0 x) = inr t' → rows t' = rows t ++ [data x].
Proof.
  unfold th_cat. destruct (cat_skipped t) eqn:Hs.
  - apply cat_skipped_true in Hs as [-> _]. by intros [= <-].
  - rewrite unsqueeze_not_skipped. case_decide; [|done]. by intros [= <-].
Qed.

Lemma th_cat_row_shape t x t' :
  cat_skipped t = false →
  th_cat t (th_unsqueeze0 x) = inr t' → row_shape t' = row_shape t.
Proof.
  intros Hs. unfold th_cat. rewrite Hs, unsqueeze_not_skipped.
  case_decide; [|done]. by intros [= <-].
Qed.

Lemma th_cat_same_shape t x :
  shape x = row_shape t →
  ∃ t', th_cat t (th_unsqueeze0 x) = inr t'.
Proof.
  intros Hx. unfold th_cat. destruct (cat_skipped t); [eauto|].
  rewrite unsqueeze_not_skipped. simpl. rewrite decide_True by done. eauto.
Qed.

(** Outside the 1-D empty case, a row of another shape is refused. *)
Lemma th_cat_mismatch t x :
  cat_skipped t = false → shape x ≠ row_shape t →
  th_cat t (th_unsqueeze0 x) = inl RuntimeError.
Proof.
  intros Hs Hx. unfold th_cat. rewrite Hs, unsqueeze_not_skipped. simpl.
  by rewrite decide_False by done.
Qed.

Lemma setitem_layout t i x t' :
  setitem t i x = inr t' →
  row_shape t' = row_shape t ∧ length (rows t') = length (rows t).
Proof.
  unfold setitem. destruct (norm_index _ _); [done|].
  case_decide; [intros [= <-]; simpl; by rewrite length_insert|].
  destruct (expand _ _ _); [|done].
  intros [= <-]; simpl. by rewrite length_insert.
Qed.

Lemma setitem_empty t i x : rows t = [] → setitem t i x = inl IndexError.
Proof. intros Hr. unfold setitem. by rewrite Hr, norm_index_empty. Qed.

Lemma gather_rows_length (rs : list (list elt)) idx out :
  gather_rows rs idx = inr out → length out = length idx.
Proof.
  revert out. induction idx as [|i idx IH]; intros out; simpl.
  - by intros [= <-].
  - destruct (norm_index _ _); [done|].
    destruct (rs !! _), (gather_rows rs idx); try done.
    intros [= <-]. simpl. f_equal. by apply IH.
Qed.

Lemma gather_rows_in_range (rs : list (list elt)) idx :
  Forall (λ i, 0 ≤ i < Z.of_nat (length rs)) idx →
  ∃ out, gather_rows rs idx = inr out.
Proof.
  induction 1 as [|i idx Hi _ [out IH]]; simpl; [eauto|].
  replace i with (Z.of_nat (Z.to_nat i)) by lia.
  rewrite norm_index_nat by lia.
  destruct (lookup_lt_is_Some_2 rs (Z.to_nat i)) as [r ->]; [lia|].
  rewrite IH. eauto.
Qed.

(** Gathering the indices [0 .. n-1] returns the first [n] rows. *)
Lemma gather_rows_range (rs : list (list elt)) (n : nat) :
  (n ≤ length rs)%nat →
  gather_rows rs (Z.of_nat <$> seq 0 n) = inr (take n rs).
Proof.
  intros Hn. 
  assert (∀ m k, (k + m ≤ length rs)%nat →
    gather_rows rs (Z.of_nat <$> seq k m) = inr (take m (drop k rs))) as Hgen.
  { induction m as [|m IH]; intros k Hk; simpl; [done|].
    rewrite norm_index_nat by lia.
    destruct (lookup_lt_is_Some_2 rs k) as [r Hr]; [lia|].
    rewrite Hr, IH by lia.
    by rewrite (drop_S _ _ _ Hr). }
  by rewrite (Hgen n 0%nat).
Qed.

End TensorFacts.

(** ** The shared body of [insert_transition] *)

Section StoreFacts.
Context {elt : Type} `{!Numeric elt}.
Implicit Types (b : buffer elt) (news : list (ndarray elt)).

Lemma with_buffers_id b : with_buffers b (buffers b) = b.
Proof. by destruct b. Qed.

Lemma with_buffers_twice b bs bs' :
  with_buffers (with_buffers b bs) bs' = with_buffers b bs'.
Proof. done. Qed.

Lemma map_exn_Forall2 {A B} (f : A → exn + B) l bs :
  map_exn f l = inr bs ↔ Forall2 (λ a c, f a = inr c) l bs.
Proof.
  revert bs. induction l as [|a l IH]; intros bs; simpl.
  - split; [intros [= <-]; constructor | by inversion 1].
  - split.
    + destruct (f a) eqn:Hfa; [done|].
      destruct (map_exn f l) eqn:Hl; [done|].
      intros [= <-]. constructor; [done|]. by apply IH.
    + inversion 1 as [|? c ? cs Hfa Hrest]; subst.
      rewrite Hfa. apply IH in Hrest. by rewrite Hrest.
Qed.

(** The growing branch either replaces [self.buffers] by the
    concatenations or raises and leaves [self] as it was. *)
Lemma append_all_ok news b b' :
  append_all news b = (inr (), b') →
  ∃ bs, b' = with_buffers b bs
    ∧ Forall2 (λ i t', ∃ t x, buffers b !! i = Some t ∧ news !! i = Some x
                        ∧ th_cat t (th_unsqueeze0 x) = inr t')
              (seq 0 (length news)) bs.
Proof.
  unfold append_all, mbind, M_bind, get_self, lift, set_buffers.
  destruct (map_exn _ _) as [e|bs] eqn:Hm; [done|].
  intros [= <-]. exists bs. split; [done|].
  apply map_exn_Forall2 in Hm.
  eapply Forall2_impl; [exact Hm|]. intros i t'. simpl.
  destruct (buffers b !! i) as [t|], (news !! i) as [x|]; try done.
  eauto.
Qed.

Lemma append_all_raise news b e b' :
  append_all news b = (inl e, b') → b' = b.
Proof.
  unfold append_all, mbind, M_bind, get_self, lift, set_buffers.
  destruct (map_exn _ _); [|done]. by intros [= _ <-].
Qed.

Lemma append_all_leading news b b' n :
  length (buffers b) = length news →
  leading b n → append_all news b = (inr (), b') →
  length (buffers b') = length news ∧ leading b' (S n).
Proof.
  intros Hlen Hn (bs & -> & Hbs)%append_all_ok. simpl. split.
  - apply Forall2_length in Hbs. by rewrite length_seq in Hbs.
  - unfold leading. simpl. eapply Forall2_Forall_r; [exact Hbs|].
    apply Forall_forall. intros i _ t' (t & x & Ht & _ & Hcat).
    apply th_cat_rows in Hcat. rewrite Hcat, length_app. simpl.
    unfold leading in Hn. rewrite Forall_lookup in Hn.
    rewrite (Hn _ _ Ht). lia.
Qed.

(** The overwriting branch changes nothing but rows of the tensors of
    [self.buffers], whether the loop completes or raises on the way. *)
Lemma overwrite_layout news : ∀ bs i b r b',
  (∀ j t, bs !! j = Some t → buffers b !! (i + j)%nat = Some t) →
  overwrite i bs news b = (r, b') →
  ∃ bs', b' = with_buffers b bs' ∧ Forall2 same_layout (buffers b) bs'.
Proof.
  assert (∀ l : list (tensor elt), Forall2 same_layout l l) as Hrefl.
  { intros l. apply Forall2_same_length_lookup_2; [done|].
    intros i t t' Ht Ht'. by simplify_eq. }
  induction news as [|x news IH]; intros bs i b r b' Hbs.
  { destruct bs; simpl; intros [= <- <-]; exists (buffers b);
      by rewrite with_buffers_id. }
  destruct bs as [|t bs]; simpl.
  { intros [= <- <-]. exists (buffers b). by rewrite with_buffers_id. }
  unfold mbind, M_bind, get_self, lift, set_buffers. simpl.
  destruct (setitem t (ptr b) x) as [e|t'] eqn:Hset.
  { intros [= <- <-]. exists (buffers b). by rewrite with_buffers_id. }
  intros Hrest. apply IH in Hrest as (bs' & -> & Hlay).
  - exists bs'. split; [done|]. simpl in Hlay.
    assert (Forall2 same_layout (buffers b) (<[i:=t']> (buffers b))) as Hstep.
    { specialize (Hbs 0%nat t eq_refl). rewrite Nat.add_0_r in Hbs.
      rewrite <-(list_insert_id (buffers b) i t) at 1 by done.
      apply Forall2_insert; [apply Hrefl|]. by apply setitem_layout in Hset. }
    eapply Forall2_trans; [|exact Hstep|exact Hlay].
    intros t1 t2 t3 [? ?] [? ?]. split; congruence.
  - intros j t0 Ht0. simpl.
    rewrite list_lookup_insert_ne by lia.
    replace (S (i + j))%nat with (i + S j)%nat by lia. by apply Hbs.
Qed.

Lemma overwrite_leading news b r b' n :
  leading b n → overwrite 0 (buffers b) news b = (r, b') →
  length (buffers b') = length (buffers b) ∧ leading b' n
  ∧ ptr b' = ptr b ∧ size b' = size b ∧ total_size b' = total_size b
  ∧ buffer_size b' = buffer_size b.
Proof.
  intros Hn Hov. apply overwrite_layout in Hov as (bs' & -> & Hlay); [|done].
  simpl. split; [symmetry; by eapply Forall2_length|].
  split; [|done]. unfold leading in *. simpl.
  eapply Forall2_Forall_r; [exact Hlay|].
  eapply Forall_impl; [exact Hn|]. intros t Ht t' [_ Hl]. congruence.
Qed.

(** With no row stored the first write of the loop is out of range. *)
Lemma overwrite_empty t bs x news b :
  rows t = [] →
  overwrite 0 (t :: bs) (x :: news) b = (inl IndexError, b).
Proof.
  intros Hr. simpl. unfold mbind, M_bind, get_self, lift.
  by rewrite setitem_empty.
Qed.

Lemma store_eq news b :
  store news b =
  match (if decide (total_size b ≤ buffer_size b)
         then append_all news b
         else overwrite 0 (buffers b) news b) with
  | (inl e, b1) => (inl e, b1)
  | (inr _, b1) => advance b1
  end.
Proof.
  unfold store, advance, mbind, M_bind, get_self, lift, set_ptr, set_size,
    set_total_size. simpl.
  destruct (decide (total_size b ≤ buffer_size b)).
  - destruct (append_all news b) as [[e|[]] b1]; [done|].
    by destruct (py_mod _ _).
  - destruct (overwrite 0 (buffers b) news b) as [[e|[]] b1]; [done|].
    by destruct (py_mod _ _).
Qed.

End StoreFacts.

(** ** The invariant *)

Section WfFacts.
Context {elt : Type} `{!Numeric elt}.
Implicit Types (b : buffer elt) (news : list (ndarray elt)).

Lemma advance_params b r b' : advance b = (r, b') → same_params b b'.
Proof.
  unfold advance. destruct (py_mod _ _); intros [= <- <-]; by repeat split.
Qed.

Lemma store_params news b r b' : store news b = (r, b') → same_params b b'.
Proof.
  rewrite store_eq. case_decide.
  - destruct (append_all news b) as [[e|[]] b1] eqn:Ha.
    + apply append_all_raise in Ha as ->. intros [= <- <-]. by repeat split.
    + apply append_all_ok in Ha as (bs & -> & _).
      intros Hadv%advance_params. exact Hadv.
  - destruct (overwrite 0 (buffers b) news b) as [r1 b1] eqn:Ho.
    apply overwrite_layout in Ho as (bs & -> & _); [|done].
    destruct r1 as [e|[]].
    + intros [= <- <-]. by repeat split.
    + intros Hadv%advance_params. exact Hadv.
Qed.

Lemma advance_wf k b r b' :
  length (buffers b) = k →
  (∃ n, leading b n
        ∧ (1 ≤ buffer_size b →
             Z.of_nat n = Z.min (total_size b + 1) (buffer_size b + 1))) →
  (1 ≤ buffer_size b →
     0 ≤ total_size b ∧ size b = Z.min (total_size b) (buffer_size b)
     ∧ ptr b = total_size b `mod` buffer_size b) →
  (buffer_size b ≤ 0 → buffer_size b = 0 ∧ size b = 0 ∧ total_size b = 0 ∧ ptr b = 0) →
  advance b = (r, b') →
  wf k b' ∧ (r = inr () → 1 ≤ buffer_size b ∧ total_size b' = total_size b + 1).
Proof.
  intros Hk (n & Hn & Hrows) Hc Hs. unfold advance, py_mod.
  case_decide as Hcap.
  - intros [= <- <-]. split; [|done].
    destruct Hs as (_ & ? & ? & ?); [lia|].
    split; [done|exists n; split_and!; [done|lia..]|lia|done].
  - intros [= <- <-]. simpl.
    assert (1 ≤ buffer_size b) as Hpos.
    { destruct (decide (1 ≤ buffer_size b)); [done|].
      destruct Hs as (? & _); lia. }
    destruct (Hc Hpos) as (Htot & Hsize & Hptr).
    split; [|done]. split; simpl.
    + done.
    + exists n. split_and!; [done|by auto|lia].
    + intros _. split_and!; [lia|lia|].
      rewrite Hptr. by rewrite Z.add_mod_idemp_l by lia.
    + lia.
Qed.

(** One run of the shared body of [insert_transition] keeps the
    invariant, whether it returns or raises; when it returns, the
    capacity is at least 1 and [total_size] went up by one. *)
Lemma store_wf k news b r b' :
  (0 < k)%nat → length news = k → wf k b → store news b = (r, b') →
  wf k b' ∧ (r = inr () → 1 ≤ buffer_size b ∧ total_size b' = total_size b + 1).
Proof.
  intros Hk Hnews Hwf. pose proof Hwf as [Hf (n & Hn & Hn1 & Hn0) Hc Hs].
  rewrite store_eq. case_decide as Hbranch.
  - destruct (append_all news b) as [[e|[]] b1] eqn:Ha.
    { apply append_all_raise in Ha as ->. by intros [= <- <-]. }
    pose proof Ha as (bs & -> & _)%append_all_ok.
    apply (append_all_leading _ _ _ n) in Ha as [Hlen Hlead]; [|congruence|done].
    simpl in Hlen. intros Hadv.
    eapply advance_wf in Hadv; [exact Hadv|simpl; congruence|..]; simpl.
    + exists (S n). split; [done|]. intros Hpos. specialize (Hn1 Hpos). lia.
    + done.
    + intros Hcap. destruct (Hs Hcap) as (? & ? & ?). lia.
  - destruct (decide (1 ≤ buffer_size b)) as [Hpos|Hneg].
    + destruct (overwrite 0 (buffers b) news b) as [r1 b1] eqn:Ho.
      apply (overwrite_leading _ _ _ _ n) in Ho
        as (Hlen & Hlead & Hptr & Hsize & Htot & Hcap); [|done].
      destruct r1 as [e|[]].
      * intros [= <- <-]. split; [|done].
        split; rewrite ?Hptr, ?Hsize, ?Htot, ?Hcap; [congruence|eauto|done..].
      * intros Hadv.
        eapply advance_wf in Hadv; [|reflexivity|..];
          rewrite ?Hptr, ?Hsize, ?Htot, ?Hcap in *.
        -- destruct Hadv as [Hwf' Hok]. split; [|done].
           destruct Hwf'; split; try done. congruence.
        -- exists n. split; [done|]. intros _. specialize (Hn1 Hpos). lia.
        -- done.
        -- lia.
    + destruct (Hs ltac:(lia)) as (Hsize & Htot & Hptr).
      assert (n = 0%nat) as -> by (apply Hn0; lia).
      destruct (buffers b) as [|t bs] eqn:Hb; [simpl in Hf; lia|].
      destruct news as [|x news]; [simpl in Hnews; lia|].
      rewrite overwrite_empty.
      * by intros [= <- <-].
      * unfold leading in Hn. rewrite Hb in Hn.
        apply Forall_cons in Hn as [Hn _]. by apply nil_length_inv.
Qed.

End WfFacts.

(** ** [TransitionBuffer] *)

Section TransitionBufferFacts.
Context {elt : Type} `{!Numeric elt}.
Implicit Types (b : buffer elt) (t : TransitionBuffer.transition elt).

Lemma np_array_inr d (x y : ndarray elt) :
  np_array d x = inr y → y = converted d x.
Proof. unfold np_array. destruct (first_error _ _); congruence. Qed.

Lemma tb_call_eq t b :
  TransitionBuffer.call t b =
  match TransitionBuffer.new_transition b (TransitionBuffer.t_state t)
          (TransitionBuffer.t_action t) (TransitionBuffer.t_next_state t)
          (TransitionBuffer.t_reward t) (TransitionBuffer.t_done t) with
  | inl e => (inl e, b)
  | inr news => store news b
  end.
Proof.
  unfold TransitionBuffer.call, TransitionBuffer.insert_transition.
  unfold mbind, M_bind, get_self, lift. by destruct (TransitionBuffer.new_transition _ _ _ _ _ _).
Qed.

Lemma tb_new_transition_inr t b news :
  TransitionBuffer.new_transition b (TransitionBuffer.t_state t)
    (TransitionBuffer.t_action t) (TransitionBuffer.t_next_state t)
    (TransitionBuffer.t_reward t) (TransitionBuffer.t_done t) = inr news →
  news = tb_items b t.
Proof.
  unfold TransitionBuffer.new_transition, tb_items, mbind, exn_bind, mret, exn_ret.
  destruct (np_array np_float32 (TransitionBuffer.t_state t)) as [|x1] eqn:H1; [done|].
  destruct (np_array np_float32 (TransitionBuffer.t_next_state t)) as [|x2] eqn:H2; [done|].
  destruct (np_array (action_dtype b) _) as [|x3] eqn:H3; [done|].
  destruct (np_array np_float32 (wrap1 (TransitionBuffer.t_reward t))) as [|x4] eqn:H4; [done|].
  destruct (np_array np_float32 (wrap1 (TransitionBuffer.t_done t))) as [|x5] eqn:H5; [done|].
  intros [= <-].
  apply np_array_inr in H1, H2, H3, H4, H5. by subst.
Qed.

(** A call either raises in a conversion, before the object is touched,
    or stores the converted items. *)
Lemma tb_call_cases t b :
  (∃ e, TransitionBuffer.new_transition b (TransitionBuffer.t_state t)
          (TransitionBuffer.t_action t) (TransitionBuffer.t_next_state t)
          (TransitionBuffer.t_reward t) (TransitionBuffer.t_done t) = inl e
        ∧ TransitionBuffer.call t b = (inl e, b))
  ∨ (TransitionBuffer.new_transition b (TransitionBuffer.t_state t)
       (TransitionBuffer.t_action t) (TransitionBuffer.t_next_state t)
       (TransitionBuffer.t_reward t) (TransitionBuffer.t_done t)
     = inr (tb_items b t)
     ∧ TransitionBuffer.call t b = store (tb_items b t) b).
Proof.
  rewrite tb_call_eq.
  destruct (TransitionBuffer.new_transition _ _ _ _ _ _) as [e|news] eqn:Hn.
  - left. by exists e.
  - right. by rewrite (tb_new_transition_inr _ _ _ Hn).
Qed.

Lemma tb_well_shaped_items t b :
  TransitionBuffer.well_shaped b t →
  TransitionBuffer.call t b = store (tb_items b t) b
  ∧ shape <$> tb_items b t = TransitionBuffer.row_shapes b.
Proof.
  intros (news & Hn & Hsh).
  pose proof (tb_new_transition_inr _ _ _ Hn) as ->.
  split; [|done]. by rewrite tb_call_eq, Hn.
Qed.

Lemma tb_clear_wf b : wf 5 (TransitionBuffer.clear b).2.
Proof.
  split; simpl; [done| |intros Hpos; rewrite Zmod_0_l; lia|done].
  exists 0%nat. split_and!; [|lia|done].
  unfold leading. simpl. by repeat constructor.
Qed.

Lemma tb_clear_params b : same_params b (TransitionBuffer.clear b).2.
Proof. by repeat split. Qed.

Lemma tb_row_shapes_params b b' :
  same_params b b' →
  TransitionBuffer.row_shapes b' = TransitionBuffer.row_shapes b.
Proof.
  intros (Hs & Ha & Hdt & _).
  unfold TransitionBuffer.row_shapes, TransitionBuffer.action_row_shape.
  by rewrite Hs, Ha, Hdt.
Qed.

Lemma tb_init_wf ss sa dt dev cap b0 :
  TransitionBuffer.init ss sa dt dev cap = inr b0 → wf 5 b0.
Proof.
  unfold TransitionBuffer.init. destruct (supported dt); [|done].
  intros [= <-]. apply tb_clear_wf.
Qed.

Lemma tb_call_wf t b :
  wf 5 b →
  wf 5 (TransitionBuffer.call t b).2 ∧ same_params b (TransitionBuffer.call t b).2.
Proof.
  intros Hwf.
  destruct (tb_call_cases t b) as [(e & _ & ->)|[_ ->]];
    [split; [done|by repeat split]|].
  destruct (store _ b) as [r b'] eqn:Hst. simpl. split.
  - eapply store_wf in Hst as [? _]; [done|lia|done|done].
  - by eapply store_params.
Qed.

Lemma tb_reachable_wf b0 b :
  wf 5 b0 → TransitionBuffer.reachable b0 b → wf 5 b ∧ same_params b0 b.
Proof.
  intros Hwf0. induction 1 as [|b t _ [IH1 IH2]|b _ [IH1 IH2]].
  - split; [done|by repeat split].
  - destruct (tb_call_wf t b IH1) as [? Hp]. split; [done|].
    unfold same_params in *. destruct_and!. split_and!; congruence.
  - split; [apply tb_clear_wf|].
    pose proof (tb_clear_params b) as Hp.
    unfold same_params in *. destruct_and!. split_and!; congruence.
Qed.

End TransitionBufferFacts.

(** ** [DAggerBuffer] *)

Section DAggerBufferFacts.
Context {elt : Type} `{!Numeric elt}.
Implicit Types (b : buffer elt) (t : ndarray elt * ndarray elt).

Lemma dagger_call_eq t b :
  DAggerBuffer.call t b =
  match DAggerBuffer.new_transition b t.1 t.2 with
  | inl e => (inl e, b)
  | inr news => store news b
  end.
Proof.
  unfold DAggerBuffer.call, DAggerBuffer.insert_transition.
  unfold mbind, M_bind, get_self, lift. by destruct (DAggerBuffer.new_transition _ _ _).
Qed.

Lemma dagger_new_transition_inr t b news :
  DAggerBuffer.new_transition b t.1 t.2 = inr news → news = dagger_items b t.
Proof.
  unfold DAggerBuffer.new_transition, dagger_items, mbind, exn_bind, mret, exn_ret.
  destruct (np_array np_float32 t.1) as [|x1] eqn:H1; [done|].
  destruct (np_array (action_dtype b) _) as [|x2] eqn:H2; [done|].
  intros [= <-].
  apply np_array_inr in H1, H2. by subst.
Qed.

Lemma dagger_call_cases t b :
  (∃ e, DAggerBuffer.new_transition b t.1 t.2 = inl e
        ∧ DAggerBuffer.call t b = (inl e, b))
  ∨ (DAggerBuffer.new_transition b t.1 t.2 = inr (dagger_items b t)
     ∧ DAggerBuffer.call t b = store (dagger_items b t) b).
Proof.
  rewrite dagger_call_eq.
  destruct (DAggerBuffer.new_transition _ _ _) as [e|news] eqn:Hn.
  - left. by exists e.
  - right. by rewrite (dagger_new_transition_inr _ _ _ Hn).
Qed.

Lemma dagger_well_shaped_items t b :
  DAggerBuffer.well_shaped b t →
  DAggerBuffer.call t b = store (dagger_items b t) b
  ∧ shape <$> dagger_items b t = DAggerBuffer.row_shapes b.
Proof.
  intros (news & Hn & Hsh).
  pose proof (dagger_new_transition_inr _ _ _ Hn) as ->.
  split; [|done]. by rewrite dagger_call_eq, Hn.
Qed.

Lemma dagger_clear_wf b : wf 2 (DAggerBuffer.clear b).2.
Proof.
  split; simpl; [done| |intros Hpos; rewrite Zmod_0_l; lia|done].
  exists 0%nat. split_and!; [|lia|done].
  unfold leading. simpl. by repeat constructor.
Qed.

Lemma dagger_init_wf ss sa dt dev cap b0 :
  DAggerBuffer.init ss sa dt dev cap = inr b0 → wf 2 b0.
Proof.
  unfold DAggerBuffer.init. destruct (supported dt); [|done].
  intros [= <-]. apply dagger_clear_wf.
Qed.

Lemma dagger_call_wf t b :
  wf 2 b →
  wf 2 (DAggerBuffer.call t b).2 ∧ same_params b (DAggerBuffer.call t b).2.
Proof.
  intros Hwf.
  destruct (dagger_call_cases t b) as [(e & _ & ->)|[_ ->]];
    [split; [done|by repeat split]|].
  destruct (store _ b) as [r b'] eqn:Hst. simpl. split.
  - eapply store_wf in Hst as [? _]; [done|lia|done|done].
  - by eapply store_params.
Qed.

Lemma dagger_reachable_wf b0 b :
  wf 2 b0 → DAggerBuffer.reachable b0 b → wf 2 b ∧ same_params b0 b.
Proof.
  intros Hwf0. induction 1 as [|b t _ [IH1 IH2]|b _ [IH1 IH2]].
  - split; [done|by repeat split].
  - destruct (dagger_call_wf t b IH1) as [? Hp]. split; [done|].
    unfold same_params in *. destruct_and!. split_and!; congruence.
  - split; [apply dagger_clear_wf|].
    assert (same_params b (DAggerBuffer.clear b).2) as Hp by by repeat split.
    unfold same_params in *. destruct_and!. split_and!; congruence.
Qed.

End DAggerBufferFacts.

(** ** The counters *)

Section Counters.
Context {elt : Type} `{!Numeric elt}.

Lemma tb_init_fields ss sa dt dev cap (b0 : buffer elt) :
  TransitionBuffer.init ss sa dt dev cap = inr b0 →
  state_shape b0 = ss ∧ action_shape b0 = sa ∧ action_dtype b0 = dt
  ∧ buffer_size b0 = (if decide (cap ≠ -1) then cap else sys_maxsize)
  ∧ buffers b0 = th_zeros0 <$> TransitionBuffer.row_shapes b0
  ∧ ptr b0 = 0 ∧ size b0 = 0 ∧ total_size b0 = 0.
Proof.
  unfold TransitionBuffer.init. destruct (supported dt); [|done].
  by intros [= <-].
Qed.

Lemma dagger_init_fields ss sa dt dev cap (b0 : buffer elt) :
  DAggerBuffer.init ss sa dt dev cap = inr b0 →
  state_shape b0 = ss ∧ action_shape b0 = sa ∧ action_dtype b0 = dt
  ∧ buffer_size b0 = (if decide (cap ≠ -1) then cap else sys_maxsize)
  ∧ buffers b0 = th_zeros0 <$> DAggerBuffer.row_shapes b0
  ∧ ptr b0 = 0 ∧ size b0 = 0 ∧ total_size b0 = 0.
Proof.
  unfold DAggerBuffer.init. destruct (supported dt); [|done].
  by intros [= <-].
Qed.

Lemma tb_reachable_insert_each b0 ts (b : buffer elt) :
  TransitionBuffer.reachable b0 b →
  TransitionBuffer.reachable b0 (TransitionBuffer.insert_each ts b).2.
Proof.
  revert b. induction ts as [|t ts IH]; intros b Hb; [done|].
  unfold TransitionBuffer.insert_each. simpl.
  unfold mbind, M_bind.
  pose proof (TransitionBuffer.reach_insert b0 b t Hb) as Hstep.
  destruct (TransitionBuffer.call t b) as [[e|[]] b1]; [done|].
  by apply IH.
Qed.

Lemma dagger_reachable_insert_each b0 ts (b : buffer elt) :
  DAggerBuffer.reachable b0 b →
  DAggerBuffer.reachable b0 (DAggerBuffer.insert_each ts b).2.
Proof.
  revert b. induction ts as [|t ts IH]; intros b Hb; [done|].
  unfold DAggerBuffer.insert_each. simpl.
  unfold mbind, M_bind.
  pose proof (DAggerBuffer.reach_insert b0 b t Hb) as Hstep.
  destruct (DAggerBuffer.call t b) as [[e|[]] b1]; [done|].
  by apply IH.
Qed.

(** After a call of the shared body that returned, [size] is the smaller
    of [total_size] and [buffer_size]. *)
Lemma store_ok_size k news (b b' : buffer elt) :
  (0 < k)%nat → length news = k → wf k b → store news b = (inr (), b') →
  size b' = Z.min (total_size b') (buffer_size b')
  ∧ total_size b' = total_size b + 1 ∧ 1 ≤ buffer_size b'.
Proof.
  intros Hk Hn Hwf Hst.
  pose proof (store_params _ _ _ _ Hst) as (_ & _ & _ & _ & Hcap).
  eapply store_wf in Hst as [Hwf' Hok]; [|done..].
  destruct Hok as [Hpos Htot]; [done|].
  destruct (wf_counters _ _ Hwf') as (_ & Hsize & _); [lia|].
  split_and!; [done|done|lia].
Qed.

(** With a capacity that is not negative, [size] is the smaller of
    [total_size] and [buffer_size] between any two calls. *)
Lemma wf_size_min k (b : buffer elt) :
  wf k b → 0 ≤ buffer_size b → size b = Z.min (total_size b) (buffer_size b).
Proof.
  intros [_ _ Hc Hs] Hcap.
  destruct (decide (1 ≤ buffer_size b)) as [Hpos|Hzero].
  - by destruct (Hc Hpos) as (_ & ? & _).
  - destruct Hs as (-> & -> & _); lia.
Qed.

End Counters.

(** C3. For a [TransitionBuffer] and for a [DAggerBuffer] built with any
    capacity argument and brought to any state by earlier calls, after
    every [insert_transition] call that returns, [size] (count) equals
    [min(total_size, buffer_size)] (total_inserted, capacity), where
    [buffer_size] is the capacity argument or, for the argument -1,
    [sys.maxsize]; for an unbounded buffer this is [total_size] itself as
    long as [total_size] has not passed [sys.maxsize]. *)
Theorem count_is_min_of_total_and_capacity :
  (∀ (elt : Type) (N : Numeric elt) ss sa dt dev cap (b0 b b' : buffer elt) t,
     TransitionBuffer.init ss sa dt dev cap = inr b0 →
     TransitionBuffer.reachable b0 b →
     TransitionBuffer.call t b = (inr (), b') →
     buffer_size b' = (if decide (cap ≠ -1) then cap else sys_maxsize)
     ∧ size b' = Z.min (total_size b') (buffer_size b')
     ∧ (cap = -1 → total_size b' ≤ sys_maxsize → size b' = total_size b'))
  ∧ (∀ (elt : Type) (N : Numeric elt) ss sa dt dev cap (b0 b b' : buffer elt) t,
     DAggerBuffer.init ss sa dt dev cap = inr b0 →
     DAggerBuffer.reachable b0 b →
     DAggerBuffer.call t b = (inr (), b') →
     buffer_size b' = (if decide (cap ≠ -1) then cap else sys_maxsize)
     ∧ size b' = Z.min (total_size b') (buffer_size b')
     ∧ (cap = -1 → total_size b' ≤ sys_maxsize → size b' = total_size b')).
Proof.
  split.
  - intros elt N ss sa dt dev cap b0 b b' t Hinit Hreach Hcall.
    pose proof (tb_init_fields _ _ _ _ _ _ Hinit) as (_ & _ & _ & Hcap0 & _).
    apply tb_init_wf in Hinit.
    destruct (tb_reachable_wf _ _ Hinit Hreach) as [Hwf (_ & _ & _ & _ & Hcap)].
    destruct (tb_call_cases t b) as [(e & _ & Hc)|[_ Hc]];
      rewrite Hc in Hcall; [done|].
    pose proof (store_params _ _ _ _ Hcall) as (_ & _ & _ & _ & Hcap').
    eapply (store_ok_size 5) in Hcall as (Hsize & _ & _); [|lia|done|done].
    assert (buffer_size b' = if decide (cap ≠ -1) then cap else sys_maxsize)
      as Hb' by congruence.
    split_and!; [done|done|].
    intros -> Hle. rewrite Hb' in Hsize. simpl in Hsize. lia.
  - intros elt N ss sa dt dev cap b0 b b' t Hinit Hreach Hcall.
    pose proof (dagger_init_fields _ _ _ _ _ _ Hinit) as (_ & _ & _ & Hcap0 & _).
    apply dagger_init_wf in Hinit.
    destruct (dagger_reachable_wf _ _ Hinit Hreach) as [Hwf (_ & _ & _ & _ & Hcap)].
    destruct (dagger_call_cases t b) as [(e & _ & Hc)|[_ Hc]];
      rewrite Hc in Hcall; [done|].
    pose proof (store_params _ _ _ _ Hcall) as (_ & _ & _ & _ & Hcap').
    eapply (store_ok_size 2) in Hcall as (Hsize & _ & _); [|lia|done|done].
    assert (buffer_size b' = if decide (cap ≠ -1) then cap else sys_maxsize)
      as Hb' by congruence.
    split_and!; [done|done|].
    intros -> Hle. rewrite Hb' in Hsize. simpl in Hsize. lia.
Qed.

Lemma count_is_min_of_total_and_capacity_witness :
  let b := (TransitionBuffer.insert_each (step <$> [0; 1; 2; 3]) (tb 3)).2 in
  let b' := (TransitionBuffer.call (step 4) b).2 in
  buffer_size b' = (if decide (3 ≠ -1) then 3 else sys_maxsize)
  ∧ size b' = Z.min (total_size b') (buffer_size b')
  ∧ (3 = -1 → total_size b' ≤ sys_maxsize → size b' = total_size b').
Proof.
  intros b b'.
  apply (proj1 count_is_min_of_total_and_capacity Z Z_numeric
           [1%nat] [] np_int64 "cpu" 3 (tb 3) b b' (step 4)).
  - vm_compute. reflexivity.
  - apply tb_reachable_insert_each. constructor.
  - vm_compute. reflexivity.
Defined.

(** ** Sampling *)

Section SampleFacts.
Context {elt : Type} `{!Numeric elt}.
Implicit Types (b : buffer elt).

Lemma swap_length {A} (x : list A) i j : length (swap x i j) = length x.
Proof.
  unfold swap. destruct (x !! i), (x !! j); try done.
  by rewrite !length_insert.
Qed.

Lemma swap_Forall {A} (P : A → Prop) (x : list A) i j :
  Forall P x → Forall P (swap x i j).
Proof.
  intros Hx. unfold swap.
  destruct (x !! i) as [xi|] eqn:Hi, (x !! j) as [xj|] eqn:Hj; try done.
  apply Forall_insert; [apply Forall_insert|]; [done|..].
  - by eapply Forall_lookup_1.
  - by eapply Forall_lookup_1.
Qed.

Lemma shuffle_from_length {A} rng (x : list A) : ∀ i k,
  length (shuffle_from rng k i x) = length x.
Proof.
  intros i. revert x. induction i as [|i IH]; intros x k; simpl; [done|].
  by rewrite IH, swap_length.
Qed.

Lemma shuffle_from_Forall {A} (P : A → Prop) rng : ∀ i k (x : list A),
  Forall P x → Forall P (shuffle_from rng k i x).
Proof.
  induction i as [|i IH]; intros k x Hx; simpl; [done|].
  by apply IH, swap_Forall.
Qed.

Lemma py_range_length n : length (py_range n) = Z.to_nat n.
Proof. unfold py_range. by rewrite length_fmap, length_seq. Qed.

Lemma py_range_bounds n : Forall (λ i, 0 ≤ i < n) (py_range n).
Proof.
  unfold py_range. apply Forall_fmap, Forall_forall.
  intros i [_ Hi]%elem_of_seq. simpl. lia.
Qed.

Lemma py_slice_to_length {A} (l : list A) bs :
  0 ≤ bs → length (py_slice_to l bs) = (Z.to_nat bs `min` length l)%nat.
Proof.
  intros Hbs. unfold py_slice_to. rewrite decide_True by done.
  apply length_take.
Qed.

Lemma sample_idx_bounds rng batch_size shuffle n :
  Forall (λ i, 0 ≤ i < n) (sample_idx rng batch_size shuffle n).
Proof.
  unfold sample_idx.
  assert (Forall (λ i, 0 ≤ i < n)
            (if shuffle then random_shuffle rng (py_range n) else py_range n))
    as Hidx.
  { destruct shuffle; [|apply py_range_bounds].
    apply shuffle_from_Forall, py_range_bounds. }
  destruct batch_size as [bs|]; [|done].
  unfold py_slice_to. case_decide; by apply Forall_take.
Qed.

Lemma sample_idx_length rng bs shuffle n :
  0 ≤ bs → 0 ≤ n →
  Z.of_nat (length (sample_idx rng (Some bs) shuffle n)) = Z.min bs n.
Proof.
  intros Hbs Hn. unfold sample_idx. rewrite py_slice_to_length by done.
  destruct shuffle.
  - unfold random_shuffle. rewrite shuffle_from_length, py_range_length. lia.
  - rewrite py_range_length. lia.
Qed.

Lemma sample_eq rng batch_size shuffle b :
  sample rng batch_size shuffle b =
  (map_exn (λ buffer, getitem_list buffer
                        (sample_idx rng batch_size shuffle (size b)))
           (buffers b), b).
Proof. done. Qed.

(** Between two calls [size] rows at least are stored in every tensor. *)
Lemma wf_size_stored k b :
  wf k b →
  0 ≤ size b ∧ Forall (λ t, size b ≤ Z.of_nat (length (rows t))) (buffers b).
Proof.
  intros [_ (n & Hn & Hn1 & _) Hc Hs].
  destruct (decide (1 ≤ buffer_size b)) as [Hpos|Hneg].
  - destruct (Hc Hpos) as (? & ? & _). specialize (Hn1 Hpos).
    split; [lia|]. eapply Forall_impl; [exact Hn|]. simpl. lia.
  - destruct Hs as (-> & _); [lia|]. split; [done|].
    eapply Forall_impl; [exact Hn|]. simpl. lia.
Qed.

Lemma map_exn_getitem_list (ts : list (tensor elt)) idx n :
  Forall (λ i, 0 ≤ i < n) idx →
  Forall (λ t, n ≤ Z.of_nat (length (rows t))) ts →
  ∃ out, map_exn (λ buffer, getitem_list buffer idx) ts = inr out
         ∧ length out = length ts
         ∧ Forall (λ t, length (rows t) = length idx) out.
Proof.
  intros Hidx. induction 1 as [|t ts Ht _ (out & IH & Hlen & Hout)]; simpl.
  { exists []. by repeat split. }
  destruct (gather_rows_in_range (rows t) idx) as [rs Hrs].
  { eapply Forall_impl; [exact Hidx|]. simpl. lia. }
  unfold getitem_list at 1. rewrite Hrs, IH.
  eexists. split; [done|]. split; [simpl; by f_equal|].
  constructor; [|done]. simpl. by eapply gather_rows_length.
Qed.

(** With [shuffle=False] and no [batch_size] the rows [0 .. size-1] of
    every tensor come back, in that order. *)
Lemma sample_plain k rng b :
  wf k b →
  sample rng None false b =
  (inr ((λ t, {| row_shape := row_shape t;
                 rows := take (Z.to_nat (size b)) (rows t) |}) <$> buffers b),
   b).
Proof.
  intros [Hsize Hrows]%wf_size_stored. rewrite sample_eq. f_equal.
  unfold sample_idx, py_range.
  induction Hrows as [|t ts Ht _ IH]; simpl; [done|].
  unfold getitem_list at 1.
  rewrite gather_rows_range by lia. by rewrite IH.
Qed.

Lemma sample_batch k rng bs shuffle b :
  wf k b → 0 ≤ bs →
  ∃ out, sample rng (Some bs) shuffle b = (inr out, b)
         ∧ length out = k
         ∧ Forall (λ t, Z.of_nat (length (rows t)) = Z.min bs (size b)) out.
Proof.
  intros Hwf Hbs. pose proof Hwf as [Hsize Hrows]%wf_size_stored.
  rewrite sample_eq.
  destruct (map_exn_getitem_list (buffers b)
              (sample_idx rng (Some bs) shuffle (size b)) (size b))
    as (out & -> & Hlen & Hout); [apply sample_idx_bounds|done|].
  exists out. split; [done|]. split; [by rewrite Hlen, (wf_fields _ _ Hwf)|].
  eapply Forall_impl; [exact Hout|]. simpl. intros t ->.
  by apply sample_idx_length.
Qed.

End SampleFacts.

(** C5. For a [TransitionBuffer] in any state that calls can bring it
    to, and every [batch_size] b >= 0, [sample(batch_size=b)] returns,
    shuffled or not, five tensors of exactly [min(b, size)] rows each;
    it does not raise, also when b exceeds [size]. *)
Theorem sample_returns_min_batch_size_count
    (elt : Type) (N : Numeric elt) ss sa dt dev cap (b0 b : buffer elt)
    (rng : nat → nat) (batch_size : Z) (shuffle : bool) :
  TransitionBuffer.init ss sa dt dev cap = inr b0 →
  TransitionBuffer.reachable b0 b →
  0 ≤ batch_size →
  ∃ out, sample rng (Some batch_size) shuffle b = (inr out, b)
         ∧ length out = 5%nat
         ∧ Forall (λ t, Z.of_nat (length (rows t)) = Z.min batch_size (size b)) out.
Proof.
  intros Hinit%tb_init_wf Hreach Hbs.
  destruct (tb_reachable_wf _ _ Hinit Hreach) as [Hwf _].
  by apply (sample_batch 5).
Qed.

Lemma sample_returns_min_batch_size_count_witness :
  ∃ out, sample rng0 (Some 7) true
           (TransitionBuffer.insert_each (step <$> [0; 1; 2; 3]) (tb 3)).2
         = (inr out, (TransitionBuffer.insert_each (step <$> [0; 1; 2; 3]) (tb 3)).2)
         ∧ length out = 5%nat
         ∧ Forall (λ t, Z.of_nat (length (rows t))
                        = Z.min 7 (size (TransitionBuffer.insert_each
                                           (step <$> [0; 1; 2; 3]) (tb 3)).2)) out.
Proof.
  apply (sample_returns_min_batch_size_count Z Z_numeric
           [1%nat] [] np_int64 "cpu" 3 (tb 3)).
  - vm_compute. reflexivity.
  - apply tb_reachable_insert_each. constructor.
  - lia.
Defined.

(** C6. For a [TransitionBuffer] in any state that calls can bring it
    to, [sample(shuffle=False)] without [batch_size] returns, for each of
    the five tensors, its rows in the slots [0 .. size-1], in slot
    order. *)
Theorem sample_unshuffled_returns_all_in_slot_order
    (elt : Type) (N : Numeric elt) ss sa dt dev cap (b0 b : buffer elt)
    (rng : nat → nat) :
  TransitionBuffer.init ss sa dt dev cap = inr b0 →
  TransitionBuffer.reachable b0 b →
  sample rng None false b =
  (inr ((λ t, {| row_shape := row_shape t;
                 rows := take (Z.to_nat (size b)) (rows t) |}) <$> buffers b),
   b).
Proof.
  intros Hinit%tb_init_wf Hreach.
  destruct (tb_reachable_wf _ _ Hinit Hreach) as [Hwf _].
  by apply (sample_plain 5).
Qed.

Lemma sample_unshuffled_returns_all_in_slot_order_witness :
  sample rng0 None false (TransitionBuffer.insert_each (step <$> [0; 1]) (tb 3)).2 =
  (inr ((λ t, {| row_shape := row_shape t;
                 rows := take (Z.to_nat (size (TransitionBuffer.insert_each
                                                 (step <$> [0; 1]) (tb 3)).2))
                              (rows t) |})
          <$> buffers (TransitionBuffer.insert_each (step <$> [0; 1]) (tb 3)).2),
   (TransitionBuffer.insert_each (step <$> [0; 1]) (tb 3)).2).
Proof.
  apply (sample_unshuffled_returns_all_in_slot_order Z Z_numeric
           [1%nat] [] np_int64 "cpu" 3 (tb 3)).
  - vm_compute. reflexivity.
  - apply tb_reachable_insert_each. constructor.
Defined.

(** C7. [sample] never mutates the buffer: whatever the object and the
    arguments, and whether the call returns or raises, the object after
    the call (the tensors of [buffers], [ptr], [size], [total_size] and
    the construction parameters) is the object before it. *)
Theorem sample_leaves_buffer_unchanged
    (elt : Type) (N : Numeric elt) (rng : nat → nat) (batch_size : option Z)
    (shuffle : bool) (b : buffer elt) :
  (sample rng batch_size shuffle b).2 = b.
Proof. by rewrite sample_eq. Qed.

(** ** The growing branch *)

Section AppendFacts.
Context {elt : Type} `{!Numeric elt}.
Implicit Types (b : buffer elt) (news : list (ndarray elt)).

(** The comprehension over [range(len(new_transition))] pairs the
    tensors with the items. *)
Lemma map_exn_range_zip {A B C} (g : A → B → exn + C) : ∀ l1 l2 pre1 pre2,
  length pre1 = length pre2 → length l1 = length l2 →
  map_exn (λ i, match (pre1 ++ l1) !! i, (pre2 ++ l2) !! i with
                | Some a, Some c => g a c
                | _, _ => inl IndexError
                end)
          (seq (length pre1) (length l2))
  = map_exn (λ p, g p.1 p.2) (zip l1 l2).
Proof.
  induction l1 as [|a l1 IH]; intros [|c l2] pre1 pre2 Hpre Hlen;
    simplify_eq/=; [done|].
  rewrite list_lookup_middle by done.
  rewrite list_lookup_middle by done.
  destruct (g a c); [done|].
  specialize (IH l2 (pre1 ++ [a]) (pre2 ++ [c])).
  rewrite <-!(assoc_L (++)) in IH. simpl in IH.
  rewrite !length_app in IH. simpl in IH.
  rewrite Nat.add_1_r in IH. by rewrite IH by (done || lia).
Qed.

Lemma append_all_zip news b :
  length (buffers b) = length news →
  append_all news b =
  match map_exn (λ p, th_cat p.1 (th_unsqueeze0 p.2)) (zip (buffers b) news) with
  | inl e => (inl e, b)
  | inr bs => (inr (), with_buffers b bs)
  end.
Proof.
  intros Hlen. unfold append_all, mbind, M_bind, get_self, lift, set_buffers.
  pose proof (map_exn_range_zip (λ t x, th_cat t (th_unsqueeze0 x))
                (buffers b) news [] [] eq_refl Hlen) as Hz.
  simpl in Hz. rewrite Hz. by destruct (map_exn _ _).
Qed.

Lemma cat_all_rows : ∀ (ts : list (tensor elt)) news bs,
  length ts = length news →
  map_exn (λ p, th_cat p.1 (th_unsqueeze0 p.2)) (zip ts news) = inr bs →
  rows <$> bs = zip_with (λ r x, r ++ [data x]) (rows <$> ts) news.
Proof.
  induction ts as [|t ts IH]; intros [|x news] bs Hlen; simplify_eq/=.
  { by intros [= <-]. }
  destruct (th_cat t (th_unsqueeze0 x)) as [|t'] eqn:Hcat; [done|].
  destruct (map_exn _ _) as [|bs'] eqn:Hrest; [done|].
  intros [= <-]. simpl. f_equal; [by apply th_cat_rows|by apply IH].
Qed.

Lemma cat_all_same_shape (ts : list (tensor elt)) news :
  Forall2 (λ t x, shape x = row_shape t) ts news →
  ∃ bs, map_exn (λ p, th_cat p.1 (th_unsqueeze0 p.2)) (zip ts news) = inr bs.
Proof.
  induction 1 as [|t x ts news Hx _ [bs IH]]; simpl; [eauto|].
  destruct (th_cat_same_shape t x Hx) as [t' ->]. rewrite IH. eauto.
Qed.

(** Any failure of the comprehension is a [RuntimeError] of [th.cat],
    and one mismatch outside the 1-D empty case is enough for it. *)
Lemma cat_all_mismatch (ts : list (tensor elt)) news :
  length ts = length news →
  (∃ i t x, ts !! i = Some t ∧ news !! i = Some x
            ∧ cat_skipped t = false ∧ shape x ≠ row_shape t) →
  map_exn (λ p, th_cat p.1 (th_unsqueeze0 p.2)) (zip ts news)
  = inl RuntimeError.
Proof.
  revert news. induction ts as [|t ts IH]; intros [|x news] Hlen;
    simplify_eq/=.
  { by intros (i & ? & ? & ? & _). }
  intros (i & t1 & x1 & Ht1 & Hx1 & Hskip & Hne).
  destruct i as [|i]; simplify_eq/=.
  - by rewrite th_cat_mismatch.
  - rewrite IH; [|done|by eauto 10].
    unfold th_cat. repeat case_match; by simplify_eq.
Qed.

End AppendFacts.

Section GrowingFacts.
Context {elt : Type} `{!Numeric elt}.
Implicit Types (b : buffer elt) (news : list (ndarray elt)).

Lemma advance_buffers b r b' : advance b = (r, b') → buffers b' = buffers b.
Proof. unfold advance. by destruct (py_mod _ _); intros [= <- <-]. Qed.

(** While [total_size <= buffer_size] a call that returns has added
    one row at the end of every tensor. *)
Lemma store_append_rows news b b' :
  length (buffers b) = length news →
  total_size b ≤ buffer_size b →
  store news b = (inr (), b') →
  rows <$> buffers b' = zip_with (λ r x, r ++ [data x]) (rows <$> buffers b) news.
Proof.
  intros Hlen Hle. rewrite store_eq, decide_True by done.
  rewrite append_all_zip by done.
  destruct (map_exn _ _) as [e|bs] eqn:Hcat; [done|].
  intros Hb'%advance_buffers. rewrite Hb'. simpl. by apply cat_all_rows.
Qed.

(** While [total_size <= buffer_size] a call that raises in [th.cat]
    leaves the object as it was. *)
Lemma store_append_mismatch news b :
  length (buffers b) = length news →
  total_size b ≤ buffer_size b →
  (∃ i t x, buffers b !! i = Some t ∧ news !! i = Some x
            ∧ cat_skipped t = false ∧ shape x ≠ row_shape t) →
  store news b = (inl RuntimeError, b).
Proof.
  intros Hlen Hle Hbad. rewrite store_eq, decide_True by done.
  rewrite append_all_zip by done. by rewrite cat_all_mismatch.
Qed.

Lemma zeros_same_shape news :
  Forall2 (λ (t : tensor elt) x, shape x = row_shape t)
          (th_zeros0 <$> (shape <$> news)) news.
Proof. induction news; simpl; by constructor. Qed.

(** With [buffer_size = 0] the first call takes the growing branch and
    then divides by zero; the rows it has concatenated stay. *)
Lemma store_zero_capacity news b :
  buffer_size b = 0 → total_size b = 0 →
  length (buffers b) = length news →
  (∃ e b', store news b = (inl e, b'))
  ∧ (Forall2 (λ t x, shape x = row_shape t) (buffers b) news →
     leading b 0 →
     ∃ b', store news b = (inl ZeroDivisionError, b')
           ∧ leading b' 1 ∧ ptr b' = ptr b ∧ size b' = size b
           ∧ total_size b' = 0).
Proof.
  intros Hcap Htot Hlen. rewrite store_eq, decide_True by lia.
  destruct (append_all news b) as [[e|[]] b1] eqn:Happ.
  - split; [eauto|]. intros Hshape _.
    rewrite append_all_zip in Happ by done.
    destruct (cat_all_same_shape _ _ Hshape) as [bs Hbs].
    by rewrite Hbs in Happ.
  - pose proof Happ as (bs & -> & _)%append_all_ok.
    unfold advance, py_mod. simpl. rewrite decide_True by done.
    split; [eauto|]. intros _ Hlead. eexists. split; [done|].
    apply (append_all_leading _ _ _ 0%nat) in Happ as [_ ?]; [|done..].
    by split_and!.
Qed.

End GrowingFacts.

(** C10. A [TransitionBuffer] or a [DAggerBuffer] is constructed with
    [buffer_size = 0] for either supported dtype, and keeps 0 as its
    capacity (it is not replaced by [sys.maxsize]).  Every first
    [insert_transition] call on it raises; for a transition whose items
    convert to the dtypes of the buffer and have the right shapes the
    exception is the [ZeroDivisionError] of [(ptr + 1) % buffer_size],
    raised after the tensors got their first row and before any counter
    moved. *)
Theorem zero_capacity_insert_divides_by_zero :
  (∀ (elt : Type) (N : Numeric elt) ss sa dt dev,
     supported dt = true →
     ∃ b0 : buffer elt,
       TransitionBuffer.init ss sa dt dev 0 = inr b0
       ∧ buffer_size b0 = 0
       ∧ ∀ t, (∃ e b', TransitionBuffer.call t b0 = (inl e, b'))
              ∧ (TransitionBuffer.well_shaped b0 t →
                 ∃ b', TransitionBuffer.call t b0 = (inl ZeroDivisionError, b')
                       ∧ leading b' 1 ∧ ptr b' = 0 ∧ size b' = 0
                       ∧ total_size b' = 0))
  ∧ (∀ (elt : Type) (N : Numeric elt) ss sa dt dev,
     supported dt = true →
     ∃ b0 : buffer elt,
       DAggerBuffer.init ss sa dt dev 0 = inr b0
       ∧ buffer_size b0 = 0
       ∧ ∀ t, (∃ e b', DAggerBuffer.call t b0 = (inl e, b'))
              ∧ (DAggerBuffer.well_shaped b0 t →
                 ∃ b', DAggerBuffer.call t b0 = (inl ZeroDivisionError, b')
                       ∧ leading b' 1 ∧ ptr b' = 0 ∧ size b' = 0
                       ∧ total_size b' = 0)).
Proof.
  split.
  - intros elt N ss sa dt dev Hdt.
    exists (TransitionBuffer.clear (fresh ss sa dt dev 0)).2.
    split; [unfold TransitionBuffer.init; by rewrite Hdt|].
    split; [done|]. intros t.
    set (b0 := (TransitionBuffer.clear (fresh ss sa dt dev 0)).2).
    destruct (store_zero_capacity (tb_items b0 t) b0) as [Hraise Hzero]; [done..|].
    split.
    + destruct (tb_call_cases t b0) as [(e & _ & ->)|[_ ->]]; [by eauto|done].
    + intros [-> Hshaped]%tb_well_shaped_items. apply Hzero.
      * change (buffers b0)
          with (th_zeros0 (elt:=elt) <$> TransitionBuffer.row_shapes b0).
        rewrite <-Hshaped. apply zeros_same_shape.
      * unfold leading. simpl. by repeat constructor.
  - intros elt N ss sa dt dev Hdt.
    exists (DAggerBuffer.clear (fresh ss sa dt dev 0)).2.
    split; [unfold DAggerBuffer.init; by rewrite Hdt|].
    split; [done|]. intros t.
    set (b0 := (DAggerBuffer.clear (fresh ss sa dt dev 0)).2).
    destruct (store_zero_capacity (dagger_items b0 t) b0) as [Hraise Hzero]; [done..|].
    split.
    + destruct (dagger_call_cases t b0) as [(e & _ & ->)|[_ ->]]; [by eauto|done].
    + intros [-> Hshaped]%dagger_well_shaped_items. apply Hzero.
      * change (buffers b0)
          with (th_zeros0 (elt:=elt) <$> DAggerBuffer.row_shapes b0).
        rewrite <-Hshaped. apply zeros_same_shape.
      * unfold leading. simpl. by repeat constructor.
Qed.

Lemma zero_capacity_insert_divides_by_zero_witness :
  TransitionBuffer.init [1%nat] [] np_int64 "cpu" 0 = inr (tb 0)
  ∧ buffer_size (tb 0) = 0
  ∧ TransitionBuffer.call (step 0) (tb 0)
    = (inl ZeroDivisionError,
       with_buffers (tb 0)
         [ {| row_shape := [1%nat]; rows := [[0]] |};
           {| row_shape := [1%nat]; rows := [[0]] |};
           {| row_shape := [1%nat]; rows := [[1]] |};
           {| row_shape := [1%nat]; rows := [[1]] |};
           {| row_shape := [1%nat]; rows := [[0]] |} ]).
Proof.
  destruct (proj1 zero_capacity_insert_divides_by_zero Z Z_numeric
              [1%nat] [] np_int64 "cpu" eq_refl)
    as (b0 & Hinit & Hcap & Hcall).
  assert (b0 = tb 0) as -> by (vm_compute in Hinit; by injection Hinit as <-).
  split; [vm_compute; reflexivity|]. split; [exact Hcap|].
  destruct (Hcall (step 0)) as [_ Hzero].
  destruct Hzero as (b' & Hb' & _);
    [eexists; split; vm_compute; reflexivity|].
  rewrite Hb'. f_equal. vm_compute in Hb'. by injection Hb' as <-.
Defined.

(** ** Growth without overwriting *)

Section TransitionBufferGrowth.
Context {elt : Type} `{!Numeric elt}.
Implicit Types (b : buffer elt) (t : TransitionBuffer.transition elt).

Lemma tb_insert_each_cons t ts b :
  TransitionBuffer.insert_each (t :: ts) b =
  match TransitionBuffer.call t b with
  | (inl e, b1) => (inl e, b1)
  | (inr _, b1) => TransitionBuffer.insert_each ts b1
  end.
Proof. done. Qed.

Lemma tb_columns_params b b' ts :
  same_params b b' → TransitionBuffer.columns b' ts = TransitionBuffer.columns b ts.
Proof.
  intros (_ & _ & Hdt & _). unfold TransitionBuffer.columns. by rewrite Hdt.
Qed.

Lemma tb_new_transition_data b t :
  data <$> tb_items b t
  = [ cast np_float32 <$> data (TransitionBuffer.t_state t);
      cast (action_dtype b) <$> data (TransitionBuffer.t_action t);
      cast np_float32 <$> data (TransitionBuffer.t_next_state t);
      cast np_float32 <$> data (TransitionBuffer.t_reward t);
      cast np_float32 <$> data (TransitionBuffer.t_done t) ].
Proof.
  unfold tb_items. simpl. by case_decide.
Qed.

Lemma zip_with_snoc_data (cols : list (list (list elt))) news :
  zip_with (λ r x, r ++ [data x]) cols news
  = zip_with (λ r d, r ++ [d]) cols (data <$> news).
Proof.
  revert news. induction cols as [|c cols IH]; intros [|x news]; simpl; [done..|].
  by rewrite IH.
Qed.

(** As long as [total_size] stays within [buffer_size + 1], calls that
    return add their transitions at the end of the tensors, in order:
    nothing is overwritten. *)
Lemma tb_append_phase ts : ∀ b b',
  wf 5 b → 1 ≤ buffer_size b →
  total_size b + Z.of_nat (length ts) ≤ buffer_size b + 1 →
  TransitionBuffer.insert_each ts b = (inr (), b') →
  rows <$> buffers b'
  = zip_with app (rows <$> buffers b) (TransitionBuffer.columns b ts)
  ∧ total_size b' = total_size b + Z.of_nat (length ts)
  ∧ wf 5 b' ∧ same_params b b'.
Proof.
  induction ts as [|t ts IH]; intros b b' Hwf Hpos Hle.
  - intros [= <-]. split_and!; [|simpl; lia|done|by repeat split].
    pose proof (wf_fields _ _ Hwf) as Hlen.
    destruct (buffers b) as [|t0 [|t1 [|t2 [|t3 [|t4 [|]]]]]]; simplify_eq/=.
    by rewrite !app_nil_r.
  - rewrite tb_insert_each_cons. rewrite length_cons, Nat2Z.inj_succ in Hle.
    rewrite length_cons, Nat2Z.inj_succ.
    destruct (TransitionBuffer.call t b) as [[e|[]] b1] eqn:Hcall; [done|].
    intros Hrest.
    destruct (tb_call_cases t b) as [(e & _ & Hc)|[_ Hc]];
      rewrite Hc in Hcall; [done|].
    pose proof (store_params _ _ _ _ Hcall) as Hpar.
    pose proof Hcall as Hrows.
    apply store_append_rows in Hrows;
      [|by rewrite (wf_fields _ _ Hwf)|lia].
    eapply (store_wf 5) in Hcall as [Hwf1 Hok]; [|lia|done..].
    destruct Hok as [_ Htot1]; [done|].
    pose proof Hpar as (_ & _ & _ & _ & Hcap).
    apply IH in Hrest as (Hcols & Htot & Hwf' & Hpar');
      [|done|lia|lia].
    split_and!; [|lia|done|].
    + rewrite Hcols, Hrows, zip_with_snoc_data, tb_new_transition_data.
      rewrite (tb_columns_params _ _ _ Hpar).
      pose proof (wf_fields _ _ Hwf) as Hlen.
      destruct (buffers b) as [|t0 [|t1 [|t2 [|t3 [|t4 [|]]]]]]; simplify_eq/=.
      by rewrite <-!(assoc_L (++)).
    + unfold same_params in *. destruct_and!. split_and!; congruence.
Qed.

Lemma th_cat_same_shape_row (u : tensor elt) x :
  shape x = row_shape u →
  ∃ u', th_cat u (th_unsqueeze0 x) = inr u' ∧ row_shape u' = row_shape u.
Proof.
  intros Hx. unfold th_cat. destruct (cat_skipped u); [by eauto|].
  rewrite unsqueeze_not_skipped. simpl. rewrite decide_True by done. eauto.
Qed.

Lemma cat_all_same_shape_rows (ts : list (tensor elt)) news :
  Forall2 (λ u x, shape x = row_shape u) ts news →
  ∃ bs, map_exn (λ p, th_cat p.1 (th_unsqueeze0 p.2)) (zip ts news) = inr bs
        ∧ row_shape <$> bs = row_shape <$> ts.
Proof.
  induction 1 as [|u x ts news Hx _ (bs & IH & Hbs)]; simpl; [by eauto|].
  destruct (th_cat_same_shape_row u x Hx) as (u' & -> & Hu'). rewrite IH.
  eexists. split; [done|]. rewrite !fmap_cons. by rewrite Hu', Hbs.
Qed.

(** While the buffer grows, items of the row shapes are accepted. *)
Lemma store_well_shaped news b :
  1 ≤ buffer_size b → total_size b ≤ buffer_size b →
  shape <$> news = row_shape <$> buffers b →
  ∃ b', store news b = (inr (), b')
        ∧ row_shape <$> buffers b' = row_shape <$> buffers b.
Proof.
  intros Hpos Hle Hshape.
  assert (length (buffers b) = length news) as Hlen.
  { apply (f_equal length) in Hshape. by rewrite !length_fmap in Hshape. }
  assert (Forall2 (λ u x, shape x = row_shape u) (buffers b) news) as Hall.
  { apply Forall2_same_length_lookup_2; [done|]. intros i u x Hu Hx.
    apply (f_equal (λ l, l !! i)) in Hshape.
    rewrite !list_lookup_fmap, Hu, Hx in Hshape. by simplify_eq/=. }
  destruct (cat_all_same_shape_rows _ _ Hall) as (bs & Hbs & Hrows).
  rewrite store_eq, decide_True by done.
  rewrite append_all_zip, Hbs by done.
  unfold advance, py_mod. simpl. rewrite decide_False by lia.
  eexists. split; [done|]. done.
Qed.

Lemma tb_well_shaped_params b b' t :
  same_params b b' →
  TransitionBuffer.well_shaped b t → TransitionBuffer.well_shaped b' t.
Proof.
  intros (Hs & Ha & Hdt & _).
  unfold TransitionBuffer.well_shaped, TransitionBuffer.new_transition,
    TransitionBuffer.row_shapes, TransitionBuffer.action_row_shape.
  by rewrite Hs, Ha, Hdt.
Qed.

(** While [total_size] stays within [buffer_size + 1], every call with a
    well-shaped transition returns. *)
Lemma tb_growth_returns ts : ∀ b,
  wf 5 b → 1 ≤ buffer_size b →
  total_size b + Z.of_nat (length ts) ≤ buffer_size b + 1 →
  row_shape <$> buffers b = TransitionBuffer.row_shapes b →
  Forall (TransitionBuffer.well_shaped b) ts →
  ∃ b', TransitionBuffer.insert_each ts b = (inr (), b').
Proof.
  induction ts as [|t ts IH]; intros b Hwf Hpos Hle Hshapes Hts; [by eexists|].
  rewrite length_cons, Nat2Z.inj_succ in Hle.
  apply Forall_cons in Hts as [Ht Hts].
  apply tb_well_shaped_items in Ht as [Hc Ht].
  rewrite tb_insert_each_cons, Hc.
  destruct (store_well_shaped (tb_items b t) b)
    as (b1 & Hcall & Hrows); [done|lia|by rewrite Hshapes|].
  rewrite Hcall.
  pose proof (store_params _ _ _ _ Hcall) as Hpar.
  eapply (store_wf 5) in Hcall as [Hwf1 Hok]; [|lia|done..].
  destruct Hok as [_ Htot1]; [done|].
  pose proof Hpar as (_ & _ & _ & _ & Hcap).
  apply IH; [done|lia|lia| |].
  - by rewrite Hrows, Hshapes, (tb_row_shapes_params _ _ Hpar).
  - eapply Forall_impl; [exact Hts|]. intros t'. by apply tb_well_shaped_params.
Qed.

(** An unbounded buffer accepts any [sys.maxsize] well-shaped
    transitions. *)
Lemma unbounded_buffer_accepts ss sa dt dev (b0 : buffer elt) ts :
  TransitionBuffer.init ss sa dt dev (-1) = inr b0 →
  Z.of_nat (length ts) ≤ sys_maxsize →
  Forall (TransitionBuffer.well_shaped b0) ts →
  ∃ b, TransitionBuffer.insert_each ts b0 = (inr (), b).
Proof.
  intros Hinit Hlen Hts.
  pose proof (tb_init_fields _ _ _ _ _ _ Hinit)
    as (_ & _ & _ & Hcap & Hbufs & _ & _ & Htot).
  simpl in Hcap. apply tb_init_wf in Hinit.
  apply tb_growth_returns; [done|by rewrite Hcap|rewrite Hcap, Htot; lia| |done].
  rewrite Hbufs. by rewrite <-list_fmap_compose, list_fmap_id.
Qed.

End TransitionBufferGrowth.

(** C8. For an unbounded [TransitionBuffer] (capacity argument -1, which
    the constructor replaces by [sys.maxsize]) and any sequence of at most
    [sys.maxsize] [insert_transition] calls that return: the five tensors
    hold exactly the inserted transitions in insertion order, so every
    insertion appended and none replaced a stored row; [size] and
    [total_size] both equal the number of insertions; and the buffer is
    still in the appending branch ([total_size <= buffer_size]). *)
Theorem unbounded_buffer_only_appends
    (elt : Type) (N : Numeric elt) ss sa dt dev (b0 b : buffer elt)
    (ts : list (TransitionBuffer.transition elt)) :
  TransitionBuffer.init ss sa dt dev (-1) = inr b0 →
  Z.of_nat (length ts) ≤ sys_maxsize →
  TransitionBuffer.insert_each ts b0 = (inr (), b) →
  rows <$> buffers b = TransitionBuffer.columns b0 ts
  ∧ size b = Z.of_nat (length ts)
  ∧ total_size b = Z.of_nat (length ts)
  ∧ total_size b ≤ buffer_size b.
Proof.
  intros Hinit Hlen Hrun.
  pose proof (tb_init_fields _ _ _ _ _ _ Hinit)
    as (_ & _ & _ & Hcap & Hbufs & _ & _ & Htot).
  simpl in Hcap. apply tb_init_wf in Hinit.
  apply tb_append_phase in Hrun as (Hrows & Htot' & Hwf & Hpar);
    [|done|rewrite Hcap; done|rewrite Hcap, Htot; lia].
  destruct Hpar as (_ & _ & _ & _ & Hcap').
  destruct (wf_counters _ _ Hwf) as (_ & Hsize & _); [rewrite Hcap', Hcap; done|].
  rewrite Hcap', Hcap in *. rewrite Htot in Htot'.
  split_and!; [|lia..].
  rewrite Hrows, Hbufs. by destruct ts.
Qed.

Lemma unbounded_buffer_only_appends_witness :
  rows <$> buffers (TransitionBuffer.insert_each (step <$> [0; 1; 2; 3; 4]) (tb (-1))).2
  = TransitionBuffer.columns (tb (-1)) (step <$> [0; 1; 2; 3; 4])
  ∧ size (TransitionBuffer.insert_each (step <$> [0; 1; 2; 3; 4]) (tb (-1))).2
    = Z.of_nat (length (step <$> [0; 1; 2; 3; 4]))
  ∧ total_size (TransitionBuffer.insert_each (step <$> [0; 1; 2; 3; 4]) (tb (-1))).2
    = Z.of_nat (length (step <$> [0; 1; 2; 3; 4]))
  ∧ total_size (TransitionBuffer.insert_each (step <$> [0; 1; 2; 3; 4]) (tb (-1))).2
    ≤ buffer_size (TransitionBuffer.insert_each (step <$> [0; 1; 2; 3; 4]) (tb (-1))).2.
Proof.
  apply (unbounded_buffer_only_appends Z Z_numeric [1%nat] [] np_int64 "cpu" (tb (-1))).
  - vm_compute. reflexivity.
  - vm_compute. discriminate.
  - vm_compute. reflexivity.
Defined.

(** ** The row stored beyond the capacity *)

Section Overshoot.
Context {elt : Type} `{!Numeric elt}.
Implicit Types (b : buffer elt).

(** Between two calls all tensors have the same number of rows: [size]
    rows while [total_size <= buffer_size], and one row more than
    [size] from then on. *)
Lemma wf_rows_and_size k b :
  wf k b → 1 ≤ buffer_size b →
  (total_size b ≤ buffer_size b → leading b (Z.to_nat (size b)))
  ∧ (buffer_size b < total_size b →
     leading b (Z.to_nat (size b + 1)) ∧ size b = buffer_size b).
Proof.
  intros [_ (n & Hn & Hn1 & _) Hc _] Hpos.
  destruct (Hc Hpos) as (? & Hsize & _). specialize (Hn1 Hpos).
  split; intros Hle.
  - replace (Z.to_nat (size b)) with n by lia. done.
  - replace (Z.to_nat (size b + 1)) with n by lia. split; [done|lia].
Qed.

(** A [TransitionBuffer] of capacity [c >= 1] keeps the first [c + 1]
    transitions, all of them and in order. *)
Lemma tb_keeps_capacity_plus_one ss sa dt dev cap (b0 b : buffer elt) ts :
  1 ≤ cap →
  TransitionBuffer.init ss sa dt dev cap = inr b0 →
  Z.of_nat (length ts) ≤ cap + 1 →
  TransitionBuffer.insert_each ts b0 = (inr (), b) →
  rows <$> buffers b = TransitionBuffer.columns b0 ts
  ∧ size b = Z.min (Z.of_nat (length ts)) cap.
Proof.
  intros Hpos Hinit Hlen Hrun.
  pose proof (tb_init_fields _ _ _ _ _ _ Hinit)
    as (_ & _ & _ & Hcap & Hbufs & _ & _ & Htot).
  rewrite decide_True in Hcap by lia. apply tb_init_wf in Hinit.
  apply tb_append_phase in Hrun as (Hrows & Htot' & Hwf & Hpar);
    [|done|lia|lia].
  destruct Hpar as (_ & _ & _ & _ & Hcap').
  destruct (wf_counters _ _ Hwf) as (_ & Hsize & _); [lia|].
  split; [|lia]. rewrite Hrows, Hbufs. by destruct ts.
Qed.

End Overshoot.

(** C1, evaluated on the code.  Capacity 3, discrete actions, states
    [[0]], [[1]], [[2]], [[3]] inserted in that order: the fourth
    insertion still finds [total_size <= buffer_size] (3 <= 3) and
    appends, so the state tensor holds the four rows [[0]], [[1]], [[2]],
    [[3]] (slot 0 is not overwritten) with [size = 3] and
    [total_size = 4], and [sample(shuffle=False)] returns the states
    [[0]], [[1]], [[2]].  After a fifth insertion the state tensor holds
    [[0]], [[4]], [[2]], [[3]]: the three rows in reach of [sample] are
    not the three most recent states. *)
Theorem capacity_three_fourth_insertion_appends :
  TransitionBuffer.init [1%nat] [] np_int64 "cpu" 3 = inr (tb 3)
  ∧ (∃ b4 out,
       TransitionBuffer.insert_each (step <$> [0; 1; 2; 3]) (tb 3) = (inr (), b4)
       ∧ rows <$> (buffers b4 !! 0%nat) = Some [[0]; [1]; [2]; [3]]
       ∧ size b4 = 3 ∧ total_size b4 = 4
       ∧ sample rng0 None false b4 = (inr out, b4)
       ∧ rows <$> (out !! 0%nat) = Some [[0]; [1]; [2]])
  ∧ (∃ b5 out,
       TransitionBuffer.insert_each (step <$> [0; 1; 2; 3; 4]) (tb 3) = (inr (), b5)
       ∧ rows <$> (buffers b5 !! 0%nat) = Some [[0]; [4]; [2]; [3]]
       ∧ size b5 = 3 ∧ total_size b5 = 5
       ∧ sample rng0 None false b5 = (inr out, b5)
       ∧ rows <$> (out !! 0%nat) = Some [[0]; [4]; [2]]).
Proof.
  split; [vm_compute; reflexivity|].
  split; eexists _, _; (split; [vm_compute; reflexivity|]);
    repeat split; vm_compute; reflexivity.
Qed.

(** C2, evaluated on the code.  After four insertions into a buffer of
    capacity 3 every tensor of a [TransitionBuffer], and of a
    [DAggerBuffer], has four rows while [size] is 3: the tensors agree
    with each other on their leading length, but not with the count. *)
Theorem leading_length_four_with_count_three :
  (∃ b4, TransitionBuffer.insert_each (step <$> [0; 1; 2; 3]) (tb 3) = (inr (), b4)
         ∧ length (buffers b4) = 5%nat ∧ leading b4 4
         ∧ size b4 = 3 ∧ total_size b4 = 4)
  ∧ (∃ b4, DAggerBuffer.insert_each (pair_of <$> [0; 1; 2; 3]) (dg 3) = (inr (), b4)
           ∧ length (buffers b4) = 2%nat ∧ leading b4 4
           ∧ size b4 = 3 ∧ total_size b4 = 4).
Proof.
  split; eexists; (split; [vm_compute; reflexivity|]);
    (split; [reflexivity|]); (split; [by repeat constructor|]);
    split; reflexivity.
Qed.

(** ** Shapes *)

Section ShapeFacts.
Context {elt : Type} `{!Numeric elt}.
Implicit Types (b : buffer elt).

Lemma not_skipped_of_row_shape (t : tensor elt) s :
  s ≠ [] → row_shape t = s → cat_skipped t = false.
Proof.
  intros Hs Ht. apply bool_decide_eq_false. unfold tensor_shape.
  intros [= _ Hr]. congruence.
Qed.

Lemma cat_all_shaped shapes : ∀ (ts : list (tensor elt)) news bs,
  length ts = length news →
  map_exn (λ p, th_cat p.1 (th_unsqueeze0 p.2)) (zip ts news) = inr bs →
  Forall2 (λ t s, s ≠ [] → row_shape t = s) ts shapes →
  Forall2 (λ t s, s ≠ [] → row_shape t = s) bs shapes.
Proof.
  intros ts. revert shapes.
  induction ts as [|t ts IH]; intros shapes [|x news] bs Hlen; simplify_eq/=.
  { by intros [= <-]. }
  destruct (th_cat t (th_unsqueeze0 x)) as [|t'] eqn:Hcat; [done|].
  destruct (map_exn _ _) as [|bs'] eqn:Hrest; [done|].
  intros [= <-]. inversion 1 as [|? s ? shapes' Hs Hshapes]; subst.
  constructor; [|by eapply IH].
  intros Hne. rewrite <-(Hs Hne).
  eapply th_cat_row_shape; [|done]. by eapply not_skipped_of_row_shape; eauto.
Qed.

Lemma store_shaped shapes news b r b' :
  length (buffers b) = length news →
  shaped shapes b → store news b = (r, b') → shaped shapes b'.
Proof.
  intros Hlen Hsh. rewrite store_eq. unfold shaped in *.
  assert (∀ b1 r1, (total_size b ≤ buffer_size b
                    → append_all news b = (r1, b1))
                   → (¬ total_size b ≤ buffer_size b
                      → overwrite 0 (buffers b) news b = (r1, b1))
                   → Forall2 (λ t s, s ≠ [] → row_shape t = s)
                             (buffers b1) shapes) as Hwrite.
  { intros b1 r1 Happ Hov.
    destruct (decide (total_size b ≤ buffer_size b)) as [Hle|Hgt].
    - specialize (Happ Hle). rewrite append_all_zip in Happ by done.
      destruct (map_exn _ _) as [e|bs] eqn:Hcat; simplify_eq/=; [done|].
      by eapply cat_all_shaped.
    - specialize (Hov Hgt).
      apply overwrite_layout in Hov as (bs' & -> & Hlay); [|done]. simpl.
      apply Forall2_flip in Hlay.
      eapply Forall2_trans; [|exact Hlay|exact Hsh].
      simpl. intros t' t0 s [Hrow _] Hs Hne. rewrite Hrow. auto. }
  destruct (if decide _ then _ else _) as [r1 b1] eqn:Hw.
  assert (Forall2 (λ t s, s ≠ [] → row_shape t = s) (buffers b1) shapes) as Hb1.
  { apply (Hwrite b1 r1); intros Hd.
    - by rewrite decide_True in Hw by done.
    - by rewrite decide_False in Hw by done. }
  destruct r1 as [e|[]]; [by intros [= <- <-]|].
  intros Hadv%advance_buffers. by rewrite Hadv.
Qed.

Lemma tb_clear_shaped b : shaped (TransitionBuffer.row_shapes b) (TransitionBuffer.clear b).2.
Proof. unfold shaped. simpl. by repeat constructor. Qed.

Lemma tb_reachable_shaped b0 b :
  wf 5 b0 → shaped (TransitionBuffer.row_shapes b0) b0 →
  TransitionBuffer.reachable b0 b →
  shaped (TransitionBuffer.row_shapes b0) b.
Proof.
  intros Hwf0 Hsh0 Hreach.
  induction Hreach as [|b t Hreach IH|b Hreach IH]; [done| |].
  - destruct (tb_reachable_wf _ _ Hwf0 Hreach) as [Hwf _].
    destruct (tb_call_cases t b) as [(e & _ & ->)|[_ ->]]; [done|].
    destruct (store (tb_items b t) b) as [r b'] eqn:Hcall. simpl.
    eapply store_shaped; [|exact IH|exact Hcall].
    by rewrite (wf_fields _ _ Hwf).
  - destruct (tb_reachable_wf _ _ Hwf0 Hreach) as [_ Hpar].
    rewrite <-(tb_row_shapes_params _ _ Hpar). apply tb_clear_shaped.
Qed.

End ShapeFacts.

(** C4, as the code has it.  While a [TransitionBuffer] holds fewer
    transitions than its capacity ([total_size < buffer_size]),
    [insert_transition] raises whenever the supplied state has another
    shape than a [state_shape] that is not [()], or the action as stored
    (a discrete action wrapped in a list) has another shape than an action
    row shape that is not [()]: either one of the [np.array] conversions
    raises and the call raises its exception, or the five items convert
    and the call raises [RuntimeError] from [th.cat]; in both cases the
    raising call leaves the object unchanged. *)
Theorem shape_mismatch_raises_while_growing
    (elt : Type) (N : Numeric elt) ss sa dt dev cap (b0 b : buffer elt)
    (t : TransitionBuffer.transition elt) :
  TransitionBuffer.init ss sa dt dev cap = inr b0 →
  TransitionBuffer.reachable b0 b →
  total_size b < buffer_size b →
  (ss ≠ [] ∧ shape (TransitionBuffer.t_state t) ≠ ss)
  ∨ (TransitionBuffer.action_row_shape b0 ≠ []
     ∧ TransitionBuffer.action_item_shape b0 (TransitionBuffer.t_action t)
       ≠ TransitionBuffer.action_row_shape b0) →
  (∃ e, TransitionBuffer.new_transition b (TransitionBuffer.t_state t)
          (TransitionBuffer.t_action t) (TransitionBuffer.t_next_state t)
          (TransitionBuffer.t_reward t) (TransitionBuffer.t_done t) = inl e
        ∧ TransitionBuffer.call t b = (inl e, b))
  ∨ (∃ news, TransitionBuffer.new_transition b (TransitionBuffer.t_state t)
               (TransitionBuffer.t_action t) (TransitionBuffer.t_next_state t)
               (TransitionBuffer.t_reward t) (TransitionBuffer.t_done t)
             = inr news
             ∧ TransitionBuffer.call t b = (inl RuntimeError, b)).
Proof.
  intros Hinit Hreach Hgrow Hbad.
  pose proof (tb_init_fields _ _ _ _ _ _ Hinit) as (Hss & _ & _ & _ & Hbufs & _).
  pose proof (tb_init_wf _ _ _ _ _ _ Hinit) as Hwf0.
  assert (shaped (TransitionBuffer.row_shapes b0) b0) as Hsh0.
  { unfold shaped. rewrite Hbufs. simpl. by repeat constructor. }
  pose proof (tb_reachable_shaped _ _ Hwf0 Hsh0 Hreach) as Hsh.
  destruct (tb_reachable_wf _ _ Hwf0 Hreach) as [Hwf (_ & _ & Hdt & _)].
  destruct (tb_call_cases t b) as [(e & Hn & Hc)|[Hn Hc]]; [left; by eauto|].
  right. eexists. split; [exact Hn|].
  rewrite Hc. apply store_append_mismatch; [|lia|].
  { by rewrite (wf_fields _ _ Hwf). }
  unfold shaped, TransitionBuffer.row_shapes in Hsh.
  inversion Hsh as [|t0 ? ? ? H0 Hsh1]; subst.
  inversion Hsh1 as [|t1 ? ? ? H1 _]; subst.
  destruct Hbad as [[Hne Hstate]|[Hne Haction]].
  - exists 0%nat, t0, (converted np_float32 (TransitionBuffer.t_state t)).
    split_and!; [by symmetry|done| |].
    + eapply not_skipped_of_row_shape; [|by apply H0]. done.
    + simpl. rewrite (H0 Hne). done.
  - exists 1%nat, t1. eexists. split_and!; [by symmetry|done| |].
    + eapply not_skipped_of_row_shape; [|by apply H1]. done.
    + simpl. rewrite (H1 Hne).
      unfold TransitionBuffer.action_item_shape in Haction. rewrite Hdt.
      by case_decide.
Qed.

Lemma shape_mismatch_raises_while_growing_witness :
  TransitionBuffer.call scalar_state (TransitionBuffer.insert_each [step 0] (tb 3)).2
  = (inl RuntimeError, (TransitionBuffer.insert_each [step 0] (tb 3)).2).
Proof.
  destruct (shape_mismatch_raises_while_growing Z Z_numeric
              [1%nat] [] np_int64 "cpu" 3 (tb 3)
              (TransitionBuffer.insert_each [step 0] (tb 3)).2 scalar_state)
    as [(e & Hraise & _)|(news & _ & Hcall)].
  - vm_compute. reflexivity.
  - apply tb_reachable_insert_each. constructor.
  - vm_compute. reflexivity.
  - left. split; discriminate.
  - vm_compute in Hraise. discriminate.
  - exact Hcall.
Defined.

(** Counterexample to C4 as stated, once the buffer overwrites.  On a
    buffer of capacity 1 that holds the states [[0]], [[1]]: a scalar
    state, whose
    shape [()] is not the state shape [(1,)], is broadcast into row 0 and
    the call returns; and a call with a well-shaped state and an action of
    two labels raises after it has overwritten row 0 of the state
    tensor. *)
Lemma shape_mismatch_counterexample :
  TransitionBuffer.reachable (tb 1) tb1_full
  ∧ rows <$> (buffers tb1_full !! 0%nat) = Some [[0]; [1]]
  ∧ shape (TransitionBuffer.t_state scalar_state) ≠ state_shape tb1_full
  ∧ (TransitionBuffer.call scalar_state tb1_full).1 = inr ()
  ∧ rows <$> (buffers (TransitionBuffer.call scalar_state tb1_full).2 !! 0%nat)
    = Some [[7]; [1]]
  ∧ TransitionBuffer.action_item_shape tb1_full (TransitionBuffer.t_action two_actions)
    ≠ TransitionBuffer.action_row_shape tb1_full
  ∧ (TransitionBuffer.call two_actions tb1_full).1 = inl RuntimeError
  ∧ rows <$> (buffers (TransitionBuffer.call two_actions tb1_full).2 !! 0%nat)
    = Some [[7]; [1]]
  ∧ (TransitionBuffer.call two_actions tb1_full).2 ≠ tb1_full.
Proof.
  split; [apply tb_reachable_insert_each; constructor|].
  repeat split; try (vm_compute; reflexivity); try (vm_compute; discriminate).
Qed.

(** An action label that [np.int64] cannot hold makes [np.array] raise
    [OverflowError] before anything is stored: whatever the capacity and
    the branch the call would take, the object stays as it was.  Here on a
    buffer that grows, on one that overwrites, and on buffers of capacity
    0 and -5. *)
Lemma conversion_overflow_leaves_buffer_unchanged :
  TransitionBuffer.call huge_action (tb 3) = (inl OverflowError, tb 3)
  ∧ TransitionBuffer.call huge_action tb1_full = (inl OverflowError, tb1_full)
  ∧ TransitionBuffer.call huge_action (tb 0) = (inl OverflowError, tb 0)
  ∧ TransitionBuffer.call huge_action (tb (-5)) = (inl OverflowError, tb (-5))
  ∧ DAggerBuffer.call (vec [7], scalar (2 ^ 63)) (dg 3)
    = (inl OverflowError, dg 3)
  ∧ ¬ TransitionBuffer.well_shaped (tb 3) huge_action.
Proof.
  split_and!; try (vm_compute; reflexivity).
  intros (news & Hnews & _). vm_compute in Hnews. discriminate.
Qed.

(** With [state_shape = ()] the state tensor starts with shape [(0,)],
    which [th.cat] skips: the first insertion is accepted whatever the
    shape of its state, here [(2,)], and fixes the row shape. *)
Lemma scalar_state_shape_takes_first_shape :
  state_shape (tb_scalar 3) = []
  ∧ shape (TransitionBuffer.t_state vector_state) = [2%nat]
  ∧ (TransitionBuffer.call vector_state (tb_scalar 3)).1 = inr ()
  ∧ buffers (TransitionBuffer.call vector_state (tb_scalar 3)).2 !! 0%nat
    = Some {| row_shape := [2%nat]; rows := [[7; 8]] |}.
Proof. repeat split; vm_compute; reflexivity. Qed.

(** ** Batches and datasets *)

Section BatchFacts.
Context {elt : Type} `{!Numeric elt}.
Implicit Types (b : buffer elt).

Lemma for_each_cons {A} (body : A → M elt unit) a l b :
  for_each body (a :: l) b =
  match body a b with
  | (inl e, b1) => (inl e, b1)
  | (inr _, b1) => for_each body l b1
  end.
Proof. done. Qed.

Lemma bind_run {A B} (m : M elt A) (k : A → M elt B) b :
  (m ≫= k) b =
  match m b with
  | (inl e, b1) => (inl e, b1)
  | (inr a, b1) => k a b1
  end.
Proof. done. Qed.

Lemma getitem_middle {A B} (p l : list A) x n (k : A → M elt B) b :
  n = length p → (getitem (p ++ x :: l) n ≫= k) b = k x b.
Proof.
  intros Hn. unfold mbind, M_bind, getitem.
  by rewrite list_lookup_middle.
Qed.

(** The loop of [insert_batch] over [range(states.shape[0])], started at
    row [length p1], on five columns of the same length. *)
Lemma tb_batch_loop : ∀ obs acts nobs rews terms p1 p2 p3 p4 p5 b,
  length p2 = length p1 → length p3 = length p1 →
  length p4 = length p1 → length p5 = length p1 →
  length acts = length obs → length nobs = length obs →
  length rews = length obs → length terms = length obs →
  for_each
    (λ i, s ← getitem (p1 ++ obs) i;
          a ← getitem (p2 ++ acts) i;
          s' ← getitem (p3 ++ nobs) i;
          r ← getitem (p4 ++ rews) i;
          d ← getitem (p5 ++ terms) i;
          TransitionBuffer.insert_transition s a s' r d)
    (seq (length p1) (length obs)) b
  = TransitionBuffer.insert_each
      (TransitionBuffer.bundle_rows obs acts nobs rews terms) b.
Proof.
  induction obs as [|s obs IH];
    intros [|a acts] [|s' nobs] [|r rews] [|d terms] p1 p2 p3 p4 p5 b
      H2 H3 H4 H5 Ha Hn Hr Ht; simplify_eq/=; [done|].
  rewrite bind_run.
  repeat (rewrite getitem_middle by done; cbv beta).
  unfold TransitionBuffer.insert_each. rewrite for_each_cons.
  change (TransitionBuffer.call (TransitionBuffer.Transition s a s' r d) b)
    with (TransitionBuffer.insert_transition s a s' r d b).
  destruct (TransitionBuffer.insert_transition s a s' r d b) as [[e|[]] b1];
    [done|].
  specialize (IH acts nobs rews terms (p1 ++ [s]) (p2 ++ [a]) (p3 ++ [s'])
                (p4 ++ [r]) (p5 ++ [d]) b1).
  rewrite <-!(assoc_L (++)) in IH. simpl in IH.
  rewrite !length_app in IH. simpl in IH. rewrite !Nat.add_1_r in IH.
  apply IH; congruence.
Qed.

Lemma tb_insert_batch_eq obs acts nobs rews terms b :
  length acts = length obs → length nobs = length obs →
  length rews = length obs → length terms = length obs →
  TransitionBuffer.insert_batch obs acts nobs rews terms b
  = TransitionBuffer.insert_each
      (TransitionBuffer.bundle_rows obs acts nobs rews terms) b.
Proof.
  intros. by apply (tb_batch_loop obs acts nobs rews terms [] [] [] [] []).
Qed.

(** [insert_batch] and [insert_dataset] bring the buffer to states that
    [insert_transition] calls reach. *)
Lemma tb_reachable_insert_batch b0 obs acts nobs rews terms b :
  TransitionBuffer.reachable b0 b →
  TransitionBuffer.reachable b0
    (TransitionBuffer.insert_batch obs acts nobs rews terms b).2.
Proof.
  unfold TransitionBuffer.insert_batch.
  generalize (seq 0 (length obs)) as l. intros l. revert b.
  set (body := λ i : nat, _).
  induction l as [|i l IH]; intros b Hb; [done|].
  rewrite for_each_cons.
  assert (body i b = (inl IndexError, b)
          ∨ ∃ t, body i b = TransitionBuffer.call t b) as [Hi|[t Hi]].
  { unfold body, getitem. rewrite !bind_run.
    destruct (obs !! i) as [s|]; [|by left].
    destruct (acts !! i) as [a|]; [|by left].
    destruct (nobs !! i) as [s'|]; [|by left].
    destruct (rews !! i) as [r|]; [|by left].
    destruct (terms !! i) as [d|]; [|by left].
    right. by exists (TransitionBuffer.Transition s a s' r d). }
  - by rewrite Hi.
  - rewrite Hi.
    pose proof (TransitionBuffer.reach_insert b0 b t Hb) as Hstep.
    destruct (TransitionBuffer.call t b) as [[e|[]] b1]; [done|].
    by apply IH.
Qed.

Lemma tb_reachable_insert_dataset b0 (dataset : gmap string (list (ndarray elt))) b :
  TransitionBuffer.reachable b0 b →
  TransitionBuffer.reachable b0 (TransitionBuffer.insert_dataset dataset b).2.
Proof.
  intros Hb. unfold TransitionBuffer.insert_dataset, dict_get.
  rewrite !bind_run.
  destruct (dataset !! "observations") as [obs|]; [|done].
  destruct (dataset !! "actions") as [acts|]; [|done].
  destruct (dataset !! "next_observations") as [nobs|]; [|done].
  destruct (dataset !! "rewards") as [rews|]; [|done].
  destruct (dataset !! "terminals") as [terms|]; [|done].
  by apply tb_reachable_insert_batch.
Qed.

Lemma bundle_rows_length : ∀ (obs acts nobs rews terms : list (ndarray elt)),
  length acts = length obs → length nobs = length obs →
  length rews = length obs → length terms = length obs →
  length (TransitionBuffer.bundle_rows obs acts nobs rews terms) = length obs.
Proof.
  induction obs as [|s obs IH];
    intros [|a acts] [|s' nobs] [|r rews] [|d terms] Ha Hn Hr Ht;
    simplify_eq/=; [done|].
  f_equal. by apply IH.
Qed.

End BatchFacts.

(** C9. For a dataset that has the keys [observations], [actions],
    [next_observations], [rewards] and [terminals], each with N rows,
    [insert_dataset] ends with the same result and the same object
    ([buffers], [ptr], [size], [total_size]) as N [insert_transition]
    calls made one after the other on the rows, in order: the same
    exception at the same row when a call raises. *)
Theorem insert_dataset_equals_sequential_inserts
    (elt : Type) (N : Numeric elt) (dataset : gmap string (list (ndarray elt)))
    (observations actions next_observations rewards terminals : list (ndarray elt))
    (b : buffer elt) :
  dataset !! "observations" = Some observations →
  dataset !! "actions" = Some actions →
  dataset !! "next_observations" = Some next_observations →
  dataset !! "rewards" = Some rewards →
  dataset !! "terminals" = Some terminals →
  length actions = length observations →
  length next_observations = length observations →
  length rewards = length observations →
  length terminals = length observations →
  TransitionBuffer.insert_dataset dataset b
  = TransitionBuffer.insert_each
      (TransitionBuffer.bundle_rows observations actions next_observations
         rewards terminals) b
  ∧ length (TransitionBuffer.bundle_rows observations actions next_observations
              rewards terminals) = length observations.
Proof.
  intros Ho Ha Hn Hr Ht Hla Hln Hlr Hlt. split; [|by apply bundle_rows_length].
  unfold TransitionBuffer.insert_dataset, dict_get, mbind, M_bind.
  rewrite Ho, Ha, Hn, Hr, Ht. simpl. by apply tb_insert_batch_eq.
Qed.

Lemma insert_dataset_equals_sequential_inserts_witness :
  TransitionBuffer.insert_dataset two_rows (tb 3)
  = TransitionBuffer.insert_each
      (TransitionBuffer.bundle_rows [vec [0]; vec [1]] [scalar 0; scalar 1]
         [vec [1]; vec [2]] [scalar 1; scalar 1] [scalar 0; scalar 1]) (tb 3)
  ∧ length (TransitionBuffer.bundle_rows [vec [0]; vec [1]] [scalar 0; scalar 1]
              [vec [1]; vec [2]] [scalar 1; scalar 1] [scalar 0; scalar 1])
    = length [vec [0]; vec [1]].
Proof.
  apply (insert_dataset_equals_sequential_inserts Z Z_numeric two_rows);
    vm_compute; reflexivity.
Defined.

(** * Further properties of the two classes *)

(** ** Counters and the write pointer *)

Section CounterFacts.
Context {elt : Type} `{!Numeric elt}.
Implicit Types (b : buffer elt) (news : list (ndarray elt)).

Lemma overwrite_counters news b r b' :
  overwrite 0 (buffers b) news b = (r, b') →
  ptr b' = ptr b ∧ size b' = size b ∧ total_size b' = total_size b.
Proof.
  intros (bs' & -> & _)%overwrite_layout; [done|done].
Qed.

(** The shared body moves [ptr], [size] and [total_size] only when it
    returns. *)
Lemma store_counters news b r b' :
  store news b = (r, b') →
  match r with
  | inr _ => buffer_size b ≠ 0
             ∧ ptr b' = (ptr b + 1) `mod` buffer_size b
             ∧ size b' = Z.min (size b + 1) (buffer_size b)
             ∧ total_size b' = total_size b + 1
  | inl _ => ptr b' = ptr b ∧ size b' = size b ∧ total_size b' = total_size b
  end.
Proof.
  rewrite store_eq.
  assert (∀ b1, ptr b1 = ptr b → size b1 = size b → total_size b1 = total_size b →
                buffer_size b1 = buffer_size b →
                advance b1 = (r, b') →
                match r with
                | inr _ => buffer_size b ≠ 0
                           ∧ ptr b' = (ptr b + 1) `mod` buffer_size b
                           ∧ size b' = Z.min (size b + 1) (buffer_size b)
                           ∧ total_size b' = total_size b + 1
                | inl _ => ptr b' = ptr b ∧ size b' = size b
                           ∧ total_size b' = total_size b
                end) as Hadv.
  { intros b1 Hp Hs Ht Hc. unfold advance, py_mod. case_decide as Hz.
    - by intros [= <- <-].
    - intros [= <- <-]. simpl. rewrite Hp, Hs, Ht, Hc in *. done. }
  case_decide.
  - destruct (append_all news b) as [[e|[]] b1] eqn:Ha.
    + apply append_all_raise in Ha as ->. by intros [= <- <-].
    + apply append_all_ok in Ha as (bs & -> & _). by apply Hadv.
  - destruct (overwrite 0 (buffers b) news b) as [r1 b1] eqn:Ho.
    pose proof (overwrite_counters _ _ _ _ Ho) as (Hp & Hs & Ht).
    apply overwrite_layout in Ho as (bs & -> & _); [|done].
    destruct r1 as [e|[]]; [by intros [= <- <-]|by apply Hadv].
Qed.

(** With a negative capacity the overwriting branch is taken on empty
    tensors: the first write is out of range. *)
Lemma store_negative_capacity k news b :
  (0 < k)%nat → length news = k → wf k b → buffer_size b < 0 →
  store news b = (inl IndexError, b).
Proof.
  intros Hk Hnews [Hf (n & Hn & _ & Hn0) _ Hs] Hneg.
  destruct Hs as (_ & Htot & _); [lia|].
  rewrite store_eq, decide_False by lia.
  destruct (buffers b) as [|u bs] eqn:Hb; [simpl in Hf; lia|].
  destruct news as [|x news]; [simpl in Hnews; lia|].
  rewrite overwrite_empty; [done|].
  unfold leading in Hn. rewrite Hb in Hn.
  apply Forall_cons in Hn as [Hn _]. rewrite (Hn0 Hneg) in Hn.
  by apply nil_length_inv.
Qed.

End CounterFacts.

(** X1. An [insert_transition] call of either class that returns has
    advanced [ptr] by one modulo [buffer_size], set [size] to
    [min(size + 1, buffer_size)] and added one to [total_size]; a call
    that raises, for whatever reason, leaves the three counters and the
    construction parameters as they were. *)
Theorem insert_moves_counters_only_on_return :
  (∀ (elt : Type) (N : Numeric elt) (b b' : buffer elt) t r,
     TransitionBuffer.call t b = (r, b') →
     same_params b b'
     ∧ match r with
       | inr _ => ptr b' = (ptr b + 1) `mod` buffer_size b
                  ∧ size b' = Z.min (size b + 1) (buffer_size b)
                  ∧ total_size b' = total_size b + 1
       | inl _ => ptr b' = ptr b ∧ size b' = size b
                  ∧ total_size b' = total_size b
       end)
  ∧ (∀ (elt : Type) (N : Numeric elt) (b b' : buffer elt) t r,
     DAggerBuffer.call t b = (r, b') →
     same_params b b'
     ∧ match r with
       | inr _ => ptr b' = (ptr b + 1) `mod` buffer_size b
                  ∧ size b' = Z.min (size b + 1) (buffer_size b)
                  ∧ total_size b' = total_size b + 1
       | inl _ => ptr b' = ptr b ∧ size b' = size b
                  ∧ total_size b' = total_size b
       end).
Proof.
  split; intros elt N b b' t r Hcall.
  - destruct (tb_call_cases t b) as [(e & _ & Hc)|[_ Hc]]; rewrite Hc in Hcall.
    { injection Hcall as <- <-. by repeat split. }
    split; [by eapply store_params|].
    apply store_counters in Hcall. destruct r; [done|]. by destruct_and!.
  - destruct (dagger_call_cases t b) as [(e & _ & Hc)|[_ Hc]]; rewrite Hc in Hcall.
    { injection Hcall as <- <-. by repeat split. }
    split; [by eapply store_params|].
    apply store_counters in Hcall. destruct r; [done|]. by destruct_and!.
Qed.

Lemma insert_moves_counters_only_on_return_witness :
  same_params tb1_full (TransitionBuffer.call two_actions tb1_full).2
  ∧ match (TransitionBuffer.call two_actions tb1_full).1 with
    | inr _ => ptr (TransitionBuffer.call two_actions tb1_full).2
               = (ptr tb1_full + 1) `mod` buffer_size tb1_full
               ∧ size (TransitionBuffer.call two_actions tb1_full).2
                 = Z.min (size tb1_full + 1) (buffer_size tb1_full)
               ∧ total_size (TransitionBuffer.call two_actions tb1_full).2
                 = total_size tb1_full + 1
    | inl _ => ptr (TransitionBuffer.call two_actions tb1_full).2 = ptr tb1_full
               ∧ size (TransitionBuffer.call two_actions tb1_full).2 = size tb1_full
               ∧ total_size (TransitionBuffer.call two_actions tb1_full).2
                 = total_size tb1_full
    end.
Proof.
  apply (proj1 insert_moves_counters_only_on_return Z Z_numeric tb1_full _ two_actions).
  vm_compute. reflexivity.
Defined.

(** X2. Between any two calls on a [TransitionBuffer] or a
    [DAggerBuffer] of capacity at least 1 (or unbounded), the write
    pointer is [total_size mod buffer_size], hence within
    [0, buffer_size), and [0 <= size <= buffer_size]. *)
Theorem write_pointer_stays_in_range :
  (∀ (elt : Type) (N : Numeric elt) ss sa dt dev cap (b0 b : buffer elt),
     TransitionBuffer.init ss sa dt dev cap = inr b0 →
     TransitionBuffer.reachable b0 b →
     1 ≤ buffer_size b0 →
     ptr b = total_size b `mod` buffer_size b
     ∧ 0 ≤ ptr b < buffer_size b ∧ 0 ≤ size b ≤ buffer_size b
     ∧ 0 ≤ total_size b)
  ∧ (∀ (elt : Type) (N : Numeric elt) ss sa dt dev cap (b0 b : buffer elt),
     DAggerBuffer.init ss sa dt dev cap = inr b0 →
     DAggerBuffer.reachable b0 b →
     1 ≤ buffer_size b0 →
     ptr b = total_size b `mod` buffer_size b
     ∧ 0 ≤ ptr b < buffer_size b ∧ 0 ≤ size b ≤ buffer_size b
     ∧ 0 ≤ total_size b).
Proof.
  split; intros elt N ss sa dt dev cap b0 b Hinit Hreach Hpos.
  - apply tb_init_wf in Hinit.
    destruct (tb_reachable_wf _ _ Hinit Hreach) as [Hwf (_ & _ & _ & _ & Hcap)].
    destruct (wf_counters _ _ Hwf) as (Htot & Hsize & Hptr); [lia|].
    split; [done|]. rewrite Hptr.
    pose proof (Z.mod_pos_bound (total_size b) (buffer_size b)). lia.
  - apply dagger_init_wf in Hinit.
    destruct (dagger_reachable_wf _ _ Hinit Hreach) as [Hwf (_ & _ & _ & _ & Hcap)].
    destruct (wf_counters _ _ Hwf) as (Htot & Hsize & Hptr); [lia|].
    split; [done|]. rewrite Hptr.
    pose proof (Z.mod_pos_bound (total_size b) (buffer_size b)). lia.
Qed.

Lemma write_pointer_stays_in_range_witness :
  ptr (TransitionBuffer.insert_each (step <$> [0; 1; 2; 3; 4]) (tb 3)).2
  = total_size (TransitionBuffer.insert_each (step <$> [0; 1; 2; 3; 4]) (tb 3)).2
    `mod` buffer_size (TransitionBuffer.insert_each (step <$> [0; 1; 2; 3; 4]) (tb 3)).2
  ∧ 0 ≤ ptr (TransitionBuffer.insert_each (step <$> [0; 1; 2; 3; 4]) (tb 3)).2
    < buffer_size (TransitionBuffer.insert_each (step <$> [0; 1; 2; 3; 4]) (tb 3)).2
  ∧ 0 ≤ size (TransitionBuffer.insert_each (step <$> [0; 1; 2; 3; 4]) (tb 3)).2
    ≤ buffer_size (TransitionBuffer.insert_each (step <$> [0; 1; 2; 3; 4]) (tb 3)).2
  ∧ 0 ≤ total_size (TransitionBuffer.insert_each (step <$> [0; 1; 2; 3; 4]) (tb 3)).2.
Proof.
  apply (proj1 write_pointer_stays_in_range Z Z_numeric
           [1%nat] [] np_int64 "cpu" 3 (tb 3)).
  - vm_compute. reflexivity.
  - apply tb_reachable_insert_each. constructor.
  - vm_compute. discriminate.
Defined.

(** X3. For either supported dtype, both constructors accept a negative
    [buffer_size] other than -1: they return an object and keep the
    negative number as its capacity.  Every [insert_transition] call on
    that object, in any state it can be in, then raises and leaves the
    object unchanged: either one of the [np.array] conversions raises and
    the call raises its exception, or the items convert and the call
    raises [IndexError] (the write to row [ptr] of an empty tensor). *)
Theorem negative_capacity_rejects_every_insert :
  (∀ (elt : Type) (N : Numeric elt) ss sa dt dev cap,
     supported dt = true → cap < -1 →
     ∃ b0 : buffer elt,
       TransitionBuffer.init ss sa dt dev cap = inr b0
       ∧ buffer_size b0 = cap
       ∧ ∀ b t,
           TransitionBuffer.reachable b0 b →
           (∃ e, TransitionBuffer.new_transition b (TransitionBuffer.t_state t)
                   (TransitionBuffer.t_action t) (TransitionBuffer.t_next_state t)
                   (TransitionBuffer.t_reward t) (TransitionBuffer.t_done t)
                 = inl e
                 ∧ TransitionBuffer.call t b = (inl e, b))
           ∨ (∃ news,
                TransitionBuffer.new_transition b (TransitionBuffer.t_state t)
                  (TransitionBuffer.t_action t) (TransitionBuffer.t_next_state t)
                  (TransitionBuffer.t_reward t) (TransitionBuffer.t_done t)
                = inr news
                ∧ TransitionBuffer.call t b = (inl IndexError, b)))
  ∧ (∀ (elt : Type) (N : Numeric elt) ss sa dt dev cap,
     supported dt = true → cap < -1 →
     ∃ b0 : buffer elt,
       DAggerBuffer.init ss sa dt dev cap = inr b0
       ∧ buffer_size b0 = cap
       ∧ ∀ b t,
           DAggerBuffer.reachable b0 b →
           (∃ e, DAggerBuffer.new_transition b t.1 t.2 = inl e
                 ∧ DAggerBuffer.call t b = (inl e, b))
           ∨ (∃ news, DAggerBuffer.new_transition b t.1 t.2 = inr news
                      ∧ DAggerBuffer.call t b = (inl IndexError, b))).
Proof.
  split; intros elt N ss sa dt dev cap Hdt Hcap.
  - destruct (TransitionBuffer.init ss sa dt dev cap) as [e|b0] eqn:Hinit.
    { unfold TransitionBuffer.init in Hinit. by rewrite Hdt in Hinit. }
    pose proof (tb_init_fields _ _ _ _ _ _ Hinit) as (_ & _ & _ & Hcap0 & _).
    rewrite decide_True in Hcap0 by lia. apply tb_init_wf in Hinit.
    exists b0. split_and!; [done..|]. intros b t Hreach.
    destruct (tb_reachable_wf _ _ Hinit Hreach) as [Hwf (_ & _ & _ & _ & Hc)].
    destruct (tb_call_cases t b) as [(e & Hn & Hcall)|[Hn Hcall]];
      [left; by eauto|].
    right. eexists. split; [exact Hn|]. rewrite Hcall.
    apply (store_negative_capacity 5); [lia|done|done|lia].
  - destruct (DAggerBuffer.init ss sa dt dev cap) as [e|b0] eqn:Hinit.
    { unfold DAggerBuffer.init in Hinit. by rewrite Hdt in Hinit. }
    pose proof (dagger_init_fields _ _ _ _ _ _ Hinit) as (_ & _ & _ & Hcap0 & _).
    rewrite decide_True in Hcap0 by lia. apply dagger_init_wf in Hinit.
    exists b0. split_and!; [done..|]. intros b t Hreach.
    destruct (dagger_reachable_wf _ _ Hinit Hreach) as [Hwf (_ & _ & _ & _ & Hc)].
    destruct (dagger_call_cases t b) as [(e & Hn & Hcall)|[Hn Hcall]];
      [left; by eauto|].
    right. eexists. split; [exact Hn|]. rewrite Hcall.
    apply (store_negative_capacity 2); [lia|done|done|lia].
Qed.

Lemma negative_capacity_rejects_every_insert_witness :
  TransitionBuffer.init [1%nat] [] np_int64 "cpu" (-5) = inr (tb (-5))
  ∧ buffer_size (tb (-5)) = -5
  ∧ TransitionBuffer.call (step 0) (tb (-5)) = (inl IndexError, tb (-5)).
Proof.
  destruct (proj1 negative_capacity_rejects_every_insert Z Z_numeric
              [1%nat] [] np_int64 "cpu" (-5) eq_refl eq_refl)
    as (b0 & Hinit & Hcap & Hall).
  assert (b0 = tb (-5)) as -> by (vm_compute in Hinit; by injection Hinit as <-).
  split; [vm_compute; reflexivity|]. split; [exact Hcap|].
  destruct (Hall (tb (-5)) (step 0)) as [(e & Hraise & _)|(news & _ & Hcall)].
  - constructor.
  - vm_compute in Hraise. discriminate.
  - exact Hcall.
Defined.

(** ** [clear] *)

(** X4. [clear] depends on the construction parameters only: called in
    any state that insertions and earlier [clear]s have brought a buffer
    to, it returns and leaves exactly the object the constructor built
    (empty tensors of the construction shapes, [ptr = size = total_size =
    0]).  For both classes. *)
Theorem clear_restores_constructed_object :
  (∀ (elt : Type) (N : Numeric elt) ss sa dt dev cap (b0 b : buffer elt),
     TransitionBuffer.init ss sa dt dev cap = inr b0 →
     TransitionBuffer.reachable b0 b →
     TransitionBuffer.clear b = (inr (), b0))
  ∧ (∀ (elt : Type) (N : Numeric elt) ss sa dt dev cap (b0 b : buffer elt),
     DAggerBuffer.init ss sa dt dev cap = inr b0 →
     DAggerBuffer.reachable b0 b →
     DAggerBuffer.clear b = (inr (), b0)).
Proof.
  split; intros elt N ss sa dt dev cap b0 b Hinit Hreach.
  - pose proof (tb_init_wf _ _ _ _ _ _ Hinit) as Hwf0.
    destruct (tb_reachable_wf _ _ Hwf0 Hreach) as [_ (Hs & Ha & Hdt & Hdev & Hcap)].
    unfold TransitionBuffer.init in Hinit. destruct (supported dt); [|done].
    injection Hinit as <-. simpl in *.
    unfold TransitionBuffer.clear, mbind, M_bind, get_self, set_buffers, set_ptr,
      set_size, set_total_size, with_buffers, with_ptr, with_size, with_total_size.
    simpl. by rewrite Hs, Ha, Hdt, Hdev, Hcap.
  - pose proof (dagger_init_wf _ _ _ _ _ _ Hinit) as Hwf0.
    destruct (dagger_reachable_wf _ _ Hwf0 Hreach) as [_ (Hs & Ha & Hdt & Hdev & Hcap)].
    unfold DAggerBuffer.init in Hinit. destruct (supported dt); [|done].
    injection Hinit as <-. simpl in *.
    unfold DAggerBuffer.clear, mbind, M_bind, get_self, set_buffers, set_ptr,
      set_size, set_total_size, with_buffers, with_ptr, with_size, with_total_size.
    simpl. by rewrite Hs, Ha, Hdt, Hdev, Hcap.
Qed.

Lemma clear_restores_constructed_object_witness :
  TransitionBuffer.clear
    (TransitionBuffer.insert_each (step <$> [0; 1; 2; 3; 4]) (tb 3)).2
  = (inr (), tb 3).
Proof.
  apply (proj1 clear_restores_constructed_object Z Z_numeric
           [1%nat] [] np_int64 "cpu" 3).
  - vm_compute. reflexivity.
  - apply tb_reachable_insert_each. constructor.
Defined.

Section ClearFacts.
Context {elt : Type} `{!Numeric elt}.

Lemma sample_idx_empty rng batch_size shuffle :
  sample_idx rng batch_size shuffle 0 = [].
Proof.
  unfold sample_idx, py_slice_to. simpl.
  destruct shuffle, batch_size as [bs|]; simpl; try done; case_decide; apply take_nil.
Qed.

End ClearFacts.

(** X5. Right after [clear], whatever the buffer held before, [sample]
    with any arguments returns without raising, and returns tensors with
    no rows and the row shapes of the construction: five for a
    [TransitionBuffer], two for a [DAggerBuffer]. *)
Theorem sample_after_clear_is_empty
    (elt : Type) (N : Numeric elt) (b : buffer elt) (rng : nat → nat)
    (batch_size : option Z) (shuffle : bool) :
  sample rng batch_size shuffle (TransitionBuffer.clear b).2
  = (inr (th_zeros0 <$> TransitionBuffer.row_shapes b), (TransitionBuffer.clear b).2)
  ∧ sample rng batch_size shuffle (DAggerBuffer.clear b).2
    = (inr (th_zeros0 <$> DAggerBuffer.row_shapes b), (DAggerBuffer.clear b).2).
Proof.
  rewrite !sample_eq. simpl. by rewrite sample_idx_empty.
Qed.

(** ** The overwriting branch *)

Section OverwriteFacts.
Context {elt : Type} `{!Numeric elt}.
Implicit Types (b : buffer elt) (news : list (ndarray elt)) (u : tensor elt).

Lemma setitem_same_but_row u p x u' :
  0 ≤ p → setitem u p x = inr u' → same_but_row p u u'.
Proof.
  intros Hp. unfold setitem, norm_index.
  case_decide as Hin; [|case_decide; [lia|done]].
  assert (∀ r j, Z.of_nat j ≠ p →
            <[Z.to_nat p := r]> (rows u) !! j = rows u !! j) as Hother.
  { intros r j Hj. apply list_lookup_insert_ne. lia. }
  case_decide.
  - intros [= <-]. split_and!; simpl; [done|by rewrite length_insert|by auto].
  - destruct (expand _ _ _); [|done].
    intros [= <-]. split_and!; simpl; [done|by rewrite length_insert|by auto].
Qed.

Lemma same_but_row_refl p u : same_but_row p u u.
Proof. by split_and!. Qed.

Lemma same_but_row_trans p u1 u2 u3 :
  same_but_row p u1 u2 → same_but_row p u2 u3 → same_but_row p u1 u3.
Proof.
  intros (? & ? & H12) (? & ? & H23). split_and!; [congruence..|].
  intros j Hj. by rewrite H23, H12.
Qed.

Lemma overwrite_same_but_row news p : ∀ bs i b r b',
  0 ≤ p → ptr b = p →
  (∀ j u, bs !! j = Some u → buffers b !! (i + j)%nat = Some u) →
  overwrite i bs news b = (r, b') →
  ∃ bs', b' = with_buffers b bs' ∧ Forall2 (same_but_row p) (buffers b) bs'.
Proof.
  intros bs i b r b' Hp. revert bs i b r b'.
  assert (∀ l : list (tensor elt), Forall2 (same_but_row p) l l) as Hrefl.
  { intros l. apply Forall2_same_length_lookup_2; [done|].
    intros i u u' Hu Hu'. simplify_eq. apply same_but_row_refl. }
  induction news as [|x news IH]; intros bs i b r b' Hptr Hbs.
  { destruct bs; simpl; intros [= <- <-]; exists (buffers b);
      by rewrite with_buffers_id. }
  destruct bs as [|u bs]; simpl.
  { intros [= <- <-]. exists (buffers b). by rewrite with_buffers_id. }
  unfold mbind, M_bind, get_self, lift, set_buffers. simpl.
  destruct (setitem u (ptr b) x) as [e|u'] eqn:Hset.
  { intros [= <- <-]. exists (buffers b). by rewrite with_buffers_id. }
  intros Hrest. apply IH in Hrest as (bs' & -> & Hlay).
  - exists bs'. split; [done|]. simpl in Hlay.
    assert (Forall2 (same_but_row p) (buffers b) (<[i:=u']> (buffers b))) as Hstep.
    { specialize (Hbs 0%nat u eq_refl). rewrite Nat.add_0_r in Hbs.
      rewrite <-(list_insert_id (buffers b) i u) at 1 by done.
      apply Forall2_insert; [apply Hrefl|].
      rewrite Hptr in Hset. by eapply setitem_same_but_row. }
    eapply Forall2_trans; [|exact Hstep|exact Hlay].
    apply same_but_row_trans.
  - done.
  - intros j u0 Hu0. simpl.
    rewrite list_lookup_insert_ne by lia.
    replace (S (i + j))%nat with (i + S j)%nat by lia. by apply Hbs.
Qed.

(** Whatever the shared body does once [total_size > buffer_size], it
    touches row [ptr] of the tensors only. *)
Lemma store_overwrite_frame news b r b' :
  0 ≤ ptr b → buffer_size b < total_size b →
  store news b = (r, b') →
  Forall2 (same_but_row (ptr b)) (buffers b) (buffers b').
Proof.
  intros Hp Hgt. rewrite store_eq, decide_False by lia.
  destruct (overwrite 0 (buffers b) news b) as [r1 b1] eqn:Ho.
  apply (overwrite_same_but_row _ (ptr b)) in Ho as (bs' & -> & Hrel);
    [|done..].
  destruct r1 as [e|[]]; [by intros [= <- <-]|].
  intros Hb'%advance_buffers. by rewrite Hb'.
Qed.

Lemma wf_ptr_nonneg k b : wf k b → 0 ≤ ptr b.
Proof.
  intros [_ _ Hc Hs]. destruct (decide (1 ≤ buffer_size b)) as [Hpos|Hneg].
  - destruct (Hc Hpos) as (_ & _ & ->).
    pose proof (Z.mod_pos_bound (total_size b) (buffer_size b)). lia.
  - destruct Hs as (_ & _ & ->); lia.
Qed.

Lemma setitem_same_shape u p x :
  0 ≤ p < Z.of_nat (length (rows u)) → shape x = row_shape u →
  setitem u p x
  = inr {| row_shape := row_shape u; rows := <[Z.to_nat p := data x]> (rows u) |}.
Proof.
  intros Hp Hx. unfold setitem, norm_index.
  by rewrite decide_True, decide_True by done.
Qed.

End OverwriteFacts.

(** X6. Once a [TransitionBuffer] holds more transitions than its
    capacity ([total_size > buffer_size]), an [insert_transition] call,
    whether it returns or raises and whatever the shapes of its
    arguments, changes at most row [ptr] of each tensor: every tensor
    keeps its row shape and its number of rows, and every row in another
    slot stays as it was. *)
Theorem overwrite_touches_only_the_pointed_row
    (elt : Type) (N : Numeric elt) ss sa dt dev cap (b0 b b' : buffer elt)
    (t : TransitionBuffer.transition elt) r :
  TransitionBuffer.init ss sa dt dev cap = inr b0 →
  TransitionBuffer.reachable b0 b →
  buffer_size b < total_size b →
  TransitionBuffer.call t b = (r, b') →
  Forall2 (same_but_row (ptr b)) (buffers b) (buffers b').
Proof.
  intros Hinit%tb_init_wf Hreach Hgt Hcall.
  destruct (tb_reachable_wf _ _ Hinit Hreach) as [Hwf _].
  destruct (tb_call_cases t b) as [(e & _ & Hc)|[_ Hc]]; rewrite Hc in Hcall.
  { injection Hcall as <- <-. apply Forall2_same_length_lookup_2; [done|].
    intros i u u' Hu Hu'. simplify_eq. apply same_but_row_refl. }
  eapply store_overwrite_frame; [|done|exact Hcall].
  by eapply wf_ptr_nonneg.
Qed.

Lemma overwrite_touches_only_the_pointed_row_witness :
  Forall2 (same_but_row (ptr (TransitionBuffer.insert_each
                                (step <$> [0; 1; 2; 3; 4]) (tb 3)).2))
    (buffers (TransitionBuffer.insert_each (step <$> [0; 1; 2; 3; 4]) (tb 3)).2)
    (buffers (TransitionBuffer.call (step 5)
                (TransitionBuffer.insert_each (step <$> [0; 1; 2; 3; 4]) (tb 3)).2).2).
Proof.
  apply (overwrite_touches_only_the_pointed_row Z Z_numeric
           [1%nat] [] np_int64 "cpu" 3 (tb 3) _ _ (step 5)
           (TransitionBuffer.call (step 5)
              (TransitionBuffer.insert_each (step <$> [0; 1; 2; 3; 4]) (tb 3)).2).1).
  - vm_compute. reflexivity.
  - apply tb_reachable_insert_each. constructor.
  - vm_compute. reflexivity.
  - vm_compute. reflexivity.
Defined.

(** X7. Once a [TransitionBuffer] of capacity at least 1 holds more
    transitions than its capacity, an [insert_transition] call whose five
    items convert to the dtypes of the buffer and have, converted, the row
    shapes of the stored tensors returns, and has replaced row [ptr] of
    every tensor by the converted item: the slot written is
    [total_size mod buffer_size], [size] stays at [buffer_size]. *)
Theorem overwrite_replaces_the_pointed_row
    (elt : Type) (N : Numeric elt) ss sa dt dev cap (b0 b : buffer elt)
    (t : TransitionBuffer.transition elt) (news : list (ndarray elt)) :
  TransitionBuffer.init ss sa dt dev cap = inr b0 →
  TransitionBuffer.reachable b0 b →
  1 ≤ buffer_size b →
  buffer_size b < total_size b →
  TransitionBuffer.new_transition b (TransitionBuffer.t_state t)
    (TransitionBuffer.t_action t) (TransitionBuffer.t_next_state t)
    (TransitionBuffer.t_reward t) (TransitionBuffer.t_done t) = inr news →
  shape <$> news = row_shape <$> buffers b →
  ∃ b', TransitionBuffer.call t b = (inr (), b')
        ∧ ptr b = total_size b `mod` buffer_size b
        ∧ rows <$> buffers b'
          = zip_with (λ rs x, <[Z.to_nat (ptr b) := data x]> rs)
              (rows <$> buffers b) news
        ∧ row_shape <$> buffers b' = row_shape <$> buffers b
        ∧ size b' = buffer_size b
        ∧ total_size b' = total_size b + 1.
Proof.
  intros Hinit%tb_init_wf Hreach Hpos Hgt Hnews Hshape.
  destruct (tb_reachable_wf _ _ Hinit Hreach) as [Hwf _].
  pose proof Hwf as [Hf (n & Hn & Hn1 & _) Hc _].
  destruct (Hc Hpos) as (Htot & Hsize & Hptr). specialize (Hn1 Hpos).
  assert (0 ≤ ptr b < Z.of_nat n) as Hin.
  { rewrite Hptr. pose proof (Z.mod_pos_bound (total_size b) (buffer_size b)). lia. }
  rewrite tb_call_eq, Hnews, store_eq, decide_False by lia.
  apply tb_new_transition_inr in Hnews as ->.
  unfold tb_items in *.
  unfold leading in Hn.
  destruct (buffers b) as [|u0 [|u1 [|u2 [|u3 [|u4 [|]]]]]] eqn:Hb;
    simplify_eq/=.
  repeat match goal with H : Forall _ (_ :: _) |- _ =>
    apply Forall_cons in H as [? H] end.
  unfold mbind, M_bind, get_self, lift, set_buffers. simpl.
  repeat (rewrite setitem_same_shape by (done || lia); simpl).
  unfold advance, py_mod. simpl. rewrite decide_False by lia.
  eexists. split; [done|]. simpl. rewrite Hb. simpl.
  split_and!; [done|done|done|lia|done].
Qed.

Lemma overwrite_replaces_the_pointed_row_witness :
  ∃ b', TransitionBuffer.call (step 5)
          (TransitionBuffer.insert_each (step <$> [0; 1; 2; 3; 4]) (tb 3)).2
        = (inr (), b')
        ∧ ptr (TransitionBuffer.insert_each (step <$> [0; 1; 2; 3; 4]) (tb 3)).2
          = total_size (TransitionBuffer.insert_each (step <$> [0; 1; 2; 3; 4]) (tb 3)).2
            `mod` buffer_size (TransitionBuffer.insert_each
                                 (step <$> [0; 1; 2; 3; 4]) (tb 3)).2
        ∧ rows <$> buffers b'
          = zip_with (λ rs x,
                        <[Z.to_nat (ptr (TransitionBuffer.insert_each
                                           (step <$> [0; 1; 2; 3; 4]) (tb 3)).2)
                          := data x]> rs)
              (rows <$> buffers (TransitionBuffer.insert_each
                                   (step <$> [0; 1; 2; 3; 4]) (tb 3)).2)
              [vec [5]; vec [0]; vec [6]; vec [1]; vec [0]]
        ∧ row_shape <$> buffers b'
          = row_shape <$> buffers (TransitionBuffer.insert_each
                                     (step <$> [0; 1; 2; 3; 4]) (tb 3)).2
        ∧ size b' = buffer_size (TransitionBuffer.insert_each
                                   (step <$> [0; 1; 2; 3; 4]) (tb 3)).2
        ∧ total_size b'
          = total_size (TransitionBuffer.insert_each
                          (step <$> [0; 1; 2; 3; 4]) (tb 3)).2 + 1.
Proof.
  apply (overwrite_replaces_the_pointed_row Z Z_numeric
           [1%nat] [] np_int64 "cpu" 3 (tb 3)
           (TransitionBuffer.insert_each (step <$> [0; 1; 2; 3; 4]) (tb 3)).2
           (step 5)).
  - vm_compute. reflexivity.
  - apply tb_reachable_insert_each. constructor.
  - vm_compute. discriminate.
  - vm_compute. reflexivity.
  - vm_compute. reflexivity.
  - vm_compute. reflexivity.
Defined.

(** ** The slots that [sample] reads *)

Section ShuffleFacts.
Context {elt : Type} `{!Numeric elt}.
Implicit Types (b : buffer elt).

Lemma insert_head_Permutation {A} (x : list A) : ∀ j c h,
  x !! j = Some c → c :: <[j := h]> x ≡ₚ h :: x.
Proof.
  induction x as [|y x IH]; intros [|j] c h Hj; simplify_eq/=.
  - apply Permutation_swap.
  - rewrite Permutation_swap, (IH _ _ h Hj). apply Permutation_swap.
Qed.

Lemma swap_Permutation {A} (x : list A) : ∀ i j, swap x i j ≡ₚ x.
Proof.
  unfold swap. induction x as [|h x IH]; intros i j; [by destruct i|].
  destruct i as [|i], j as [|j]; simpl.
  - done.
  - destruct (x !! j) as [c|] eqn:Hj; [|done]. simpl.
    by apply insert_head_Permutation.
  - destruct (x !! i) as [a|] eqn:Hi; [|done]. simpl.
    by apply insert_head_Permutation.
  - specialize (IH i j).
    destruct (x !! i) as [a|], (x !! j) as [c|]; try done.
    simpl. by apply Permutation_skip.
Qed.

Lemma shuffle_from_Permutation {A} rng : ∀ i k (x : list A),
  shuffle_from rng k i x ≡ₚ x.
Proof.
  induction i as [|i IH]; intros k x; simpl; [done|].
  by rewrite IH, swap_Permutation.
Qed.

(** [random.shuffle] rearranges its list: nothing lost, nothing repeated. *)
Lemma random_shuffle_Permutation {A} rng (x : list A) : random_shuffle rng x ≡ₚ x.
Proof. apply shuffle_from_Permutation. Qed.

Lemma swap_fmap {A B} (f : A → B) (x : list A) i j :
  swap (f <$> x) i j = f <$> swap x i j.
Proof.
  unfold swap. rewrite !list_lookup_fmap.
  destruct (x !! i), (x !! j); simpl; try done.
  by rewrite !list_fmap_insert.
Qed.

Lemma shuffle_from_fmap {A B} (f : A → B) rng : ∀ i k (x : list A),
  shuffle_from rng k i (f <$> x) = f <$> shuffle_from rng k i x.
Proof.
  induction i as [|i IH]; intros k x; simpl; [done|].
  by rewrite swap_fmap, IH.
Qed.

Lemma random_shuffle_fmap {A B} (f : A → B) rng (x : list A) :
  random_shuffle rng (f <$> x) = f <$> random_shuffle rng x.
Proof. unfold random_shuffle. by rewrite length_fmap, shuffle_from_fmap. Qed.

Lemma py_slice_to_fmap {A B} (f : A → B) (x : list A) bs :
  py_slice_to (f <$> x) bs = f <$> py_slice_to x bs.
Proof.
  unfold py_slice_to. rewrite length_fmap. case_decide; by rewrite fmap_take.
Qed.

Lemma py_slice_to_sublist {A} (x : list A) bs : py_slice_to x bs `sublist_of` x.
Proof. unfold py_slice_to. case_decide; apply sublist_take. Qed.

Lemma sample_idx_slots rng batch_size shuffle (n : Z) :
  sample_idx rng batch_size shuffle n
  = Z.of_nat <$> sample_slots rng batch_size shuffle (Z.to_nat n).
Proof.
  unfold sample_idx, sample_slots, py_range.
  destruct shuffle, batch_size as [bs|];
    by rewrite <-?py_slice_to_fmap, <-?random_shuffle_fmap.
Qed.

Lemma sample_slots_NoDup rng batch_size shuffle n :
  NoDup (sample_slots rng batch_size shuffle n).
Proof.
  unfold sample_slots.
  assert (NoDup (if shuffle then random_shuffle rng (seq 0 n) else seq 0 n))
    as Hnd.
  { destruct shuffle; [|apply NoDup_seq].
    rewrite random_shuffle_Permutation. apply NoDup_seq. }
  destruct batch_size as [bs|]; [|done].
  eapply sublist_NoDup; [exact Hnd|apply py_slice_to_sublist].
Qed.

Lemma sample_slots_bound rng batch_size shuffle n :
  Forall (λ i, i < n)%nat (sample_slots rng batch_size shuffle n).
Proof.
  unfold sample_slots.
  assert (Forall (λ i, i < n)%nat
            (if shuffle then random_shuffle rng (seq 0 n) else seq 0 n)) as Hb.
  { assert (Forall (λ i, i < n)%nat (seq 0 n)) as Hseq.
    { apply Forall_forall. intros i [_ Hi]%elem_of_seq. lia. }
    destruct shuffle; [|done]. by apply shuffle_from_Forall. }
  destruct batch_size as [bs|]; [|done].
  unfold py_slice_to. case_decide; by apply Forall_take.
Qed.

Lemma sample_slots_all rng shuffle n :
  sample_slots rng None shuffle n ≡ₚ seq 0 n.
Proof.
  unfold sample_slots. destruct shuffle; [|done].
  apply random_shuffle_Permutation.
Qed.

Lemma gather_rows_slots (rs : list (list elt)) (idx : list nat) :
  Forall (λ i, i < length rs)%nat idx →
  ∃ out, gather_rows rs (Z.of_nat <$> idx) = inr out
         ∧ Forall2 (λ i r, rs !! i = Some r) idx out.
Proof.
  induction 1 as [|i idx Hi _ (out & IH & Hout)].
  { exists []. by split. }
  rewrite fmap_cons. cbn [gather_rows].
  rewrite norm_index_nat by done.
  destruct (lookup_lt_is_Some_2 rs i Hi) as [r Hr].
  rewrite Hr, IH. exists (r :: out). split; [done|]. by constructor.
Qed.

Lemma map_exn_gathered (ts : list (tensor elt)) (idx : list nat) n :
  Forall (λ i, i < n)%nat idx →
  Forall (λ t, n ≤ length (rows t))%nat ts →
  ∃ out, map_exn (λ buffer, getitem_list buffer (Z.of_nat <$> idx)) ts = inr out
         ∧ gathered idx ts out.
Proof.
  intros Hidx. induction 1 as [|u ts Hu _ (out & IH & Hout)]; simpl.
  { exists []. split; [done|constructor]. }
  destruct (gather_rows_slots (rows u) idx) as (rs & Hrs & Hrows).
  { eapply Forall_impl; [exact Hidx|]. simpl. lia. }
  unfold getitem_list at 1. rewrite Hrs, IH.
  eexists. split; [done|]. constructor; [|done]. by split.
Qed.

Lemma sample_gathered k rng batch_size shuffle b :
  wf k b →
  ∃ out, sample rng batch_size shuffle b = (inr out, b)
         ∧ gathered (sample_slots rng batch_size shuffle (Z.to_nat (size b)))
                    (buffers b) out.
Proof.
  intros [Hsize Hrows]%wf_size_stored.
  rewrite sample_eq, sample_idx_slots.
  destruct (map_exn_gathered (buffers b)
              (sample_slots rng batch_size shuffle (Z.to_nat (size b)))
              (Z.to_nat (size b)))
    as (out & -> & Hout); [apply sample_slots_bound| |by eauto].
  eapply Forall_impl; [exact Hrows|]. simpl. lia.
Qed.

End ShuffleFacts.

(** X8. [sample] of a [TransitionBuffer], with any arguments and in any
    state the buffer can be in, never raises and reads every tensor at
    one and the same list of slots, so that row [k] of the five returned
    tensors belongs to one stored transition.  The slots are below
    [size] and none occurs twice; without [batch_size] they are a
    permutation of [0 .. size-1], shuffled or not. *)
Theorem sample_reads_all_fields_at_the_same_distinct_slots
    (elt : Type) (N : Numeric elt) ss sa dt dev cap (b0 b : buffer elt)
    (rng : nat → nat) (batch_size : option Z) (shuffle : bool) :
  TransitionBuffer.init ss sa dt dev cap = inr b0 →
  TransitionBuffer.reachable b0 b →
  ∃ out,
    sample rng batch_size shuffle b = (inr out, b)
    ∧ gathered (sample_slots rng batch_size shuffle (Z.to_nat (size b)))
               (buffers b) out
    ∧ NoDup (sample_slots rng batch_size shuffle (Z.to_nat (size b)))
    ∧ Forall (λ i, Z.of_nat i < size b)
             (sample_slots rng batch_size shuffle (Z.to_nat (size b)))
    ∧ (batch_size = None →
       sample_slots rng batch_size shuffle (Z.to_nat (size b))
       ≡ₚ seq 0 (Z.to_nat (size b))).
Proof.
  intros Hinit%tb_init_wf Hreach.
  destruct (tb_reachable_wf _ _ Hinit Hreach) as [Hwf _].
  destruct (sample_gathered 5 rng batch_size shuffle b Hwf) as (out & Hs & Hg).
  exists out. split_and!; [done|done|apply sample_slots_NoDup| |].
  - eapply Forall_impl; [apply sample_slots_bound|]. simpl. lia.
  - intros ->. apply sample_slots_all.
Qed.

Lemma sample_reads_all_fields_at_the_same_distinct_slots_witness :
  ∃ out,
    sample (λ k, k) None true
      (TransitionBuffer.insert_each (step <$> [0; 1; 2]) (tb 3)).2
    = (inr out, (TransitionBuffer.insert_each (step <$> [0; 1; 2]) (tb 3)).2)
    ∧ gathered
        (sample_slots (λ k, k) None true
           (Z.to_nat (size (TransitionBuffer.insert_each (step <$> [0; 1; 2]) (tb 3)).2)))
        (buffers (TransitionBuffer.insert_each (step <$> [0; 1; 2]) (tb 3)).2) out
    ∧ NoDup (sample_slots (λ k, k) None true
               (Z.to_nat (size (TransitionBuffer.insert_each
                                  (step <$> [0; 1; 2]) (tb 3)).2)))
    ∧ Forall (λ i, Z.of_nat i
                   < size (TransitionBuffer.insert_each (step <$> [0; 1; 2]) (tb 3)).2)
        (sample_slots (λ k, k) None true
           (Z.to_nat (size (TransitionBuffer.insert_each (step <$> [0; 1; 2]) (tb 3)).2)))
    ∧ ((None : option Z) = None →
       sample_slots (λ k, k) None true
         (Z.to_nat (size (TransitionBuffer.insert_each (step <$> [0; 1; 2]) (tb 3)).2))
       ≡ₚ seq 0 (Z.to_nat (size (TransitionBuffer.insert_each
                                   (step <$> [0; 1; 2]) (tb 3)).2))).
Proof.
  apply (sample_reads_all_fields_at_the_same_distinct_slots Z Z_numeric
           [1%nat] [] np_int64 "cpu" 3 (tb 3)).
  - vm_compute. reflexivity.
  - apply tb_reachable_insert_each. constructor.
Defined.

Section SliceFacts.
Context {elt : Type} `{!Numeric elt}.

Lemma sample_idx_length_negative rng bs shuffle n :
  bs < 0 → 0 ≤ n →
  Z.of_nat (length (sample_idx rng (Some bs) shuffle n)) = Z.max 0 (n + bs).
Proof.
  intros Hbs Hn. unfold sample_idx, py_slice_to.
  rewrite decide_False by lia. rewrite length_take.
  assert (length (if shuffle then random_shuffle rng (py_range n) else py_range n)
          = Z.to_nat n) as ->.
  { destruct shuffle; [unfold random_shuffle; rewrite shuffle_from_length|];
      apply py_range_length. }
  lia.
Qed.

End SliceFacts.

(** X9. A negative [batch_size] is not an error: [idx[:batch_size]] drops
    the last [-batch_size] indices, so [sample(batch_size=b)] with
    [b < 0] returns five tensors of [max(0, size + b)] rows each, in any
    state the buffer can be in. *)
Theorem sample_negative_batch_size_drops_from_the_end
    (elt : Type) (N : Numeric elt) ss sa dt dev cap (b0 b : buffer elt)
    (rng : nat → nat) (batch_size : Z) (shuffle : bool) :
  TransitionBuffer.init ss sa dt dev cap = inr b0 →
  TransitionBuffer.reachable b0 b →
  batch_size < 0 →
  ∃ out, sample rng (Some batch_size) shuffle b = (inr out, b)
         ∧ length out = 5%nat
         ∧ Forall (λ t, Z.of_nat (length (rows t)) = Z.max 0 (size b + batch_size))
                  out.
Proof.
  intros Hinit%tb_init_wf Hreach Hbs.
  destruct (tb_reachable_wf _ _ Hinit Hreach) as [Hwf _].
  pose proof Hwf as [Hsize Hrows]%wf_size_stored.
  rewrite sample_eq.
  destruct (map_exn_getitem_list (buffers b)
              (sample_idx rng (Some batch_size) shuffle (size b)) (size b))
    as (out & -> & Hlen & Hout); [apply sample_idx_bounds|done|].
  exists out. split; [done|]. split; [by rewrite Hlen, (wf_fields _ _ Hwf)|].
  eapply Forall_impl; [exact Hout|]. simpl. intros t ->.
  by apply sample_idx_length_negative.
Qed.

Lemma sample_negative_batch_size_drops_from_the_end_witness :
  ∃ out, sample rng0 (Some (-1)) false
           (TransitionBuffer.insert_each (step <$> [0; 1; 2]) (tb 3)).2
         = (inr out, (TransitionBuffer.insert_each (step <$> [0; 1; 2]) (tb 3)).2)
         ∧ length out = 5%nat
         ∧ Forall (λ t, Z.of_nat (length (rows t))
                        = Z.max 0 (size (TransitionBuffer.insert_each
                                           (step <$> [0; 1; 2]) (tb 3)).2 + -1))
                  out.
Proof.
  apply (sample_negative_batch_size_drops_from_the_end Z Z_numeric
           [1%nat] [] np_int64 "cpu" 3 (tb 3)).
  - vm_compute. reflexivity.
  - apply tb_reachable_insert_each. constructor.
  - lia.
Defined.

(** ** Shapes of the stored rows *)

(** X10. The row shapes of a [TransitionBuffer] are fixed for its
    lifetime: in every state that calls can bring it to it has five
    tensors, the reward and done tensors have rows of shape [(1,)], the
    action tensor has rows of shape [(1,)] for discrete actions and of
    shape [action_shape], when that is not [()], for continuous ones, and
    the two state tensors have rows of shape [state_shape] when that is
    not [()]. *)
Theorem stored_row_shapes_are_fixed
    (elt : Type) (N : Numeric elt) ss sa dt dev cap (b0 b : buffer elt) :
  TransitionBuffer.init ss sa dt dev cap = inr b0 →
  TransitionBuffer.reachable b0 b →
  ∃ u0 u1 u2 u3 u4,
    buffers b = [u0; u1; u2; u3; u4]
    ∧ (ss ≠ [] → row_shape u0 = ss ∧ row_shape u2 = ss)
    ∧ (dt = np_int64 → row_shape u1 = [1%nat])
    ∧ (dt ≠ np_int64 → sa ≠ [] → row_shape u1 = sa)
    ∧ row_shape u3 = [1%nat] ∧ row_shape u4 = [1%nat].
Proof.
  intros Hinit Hreach.
  pose proof (tb_init_fields _ _ _ _ _ _ Hinit)
    as (Hss & Hsa & Hdt & _ & Hbufs & _).
  pose proof (tb_init_wf _ _ _ _ _ _ Hinit) as Hwf0.
  assert (shaped (TransitionBuffer.row_shapes b0) b0) as Hsh0.
  { unfold shaped. rewrite Hbufs. simpl. by repeat constructor. }
  pose proof (tb_reachable_shaped _ _ Hwf0 Hsh0 Hreach) as Hsh.
  unfold shaped, TransitionBuffer.row_shapes, TransitionBuffer.action_row_shape in Hsh.
  rewrite Hss, Hsa, Hdt in Hsh.
  inversion Hsh as [|u0 ? l0 ? H0 Hsh1 E0]; subst.
  inversion Hsh1 as [|u1 ? l1 ? H1 Hsh2 E1]; subst.
  inversion Hsh2 as [|u2 ? l2 ? H2 Hsh3 E2]; subst.
  inversion Hsh3 as [|u3 ? l3 ? H3 Hsh4 E3]; subst.
  inversion Hsh4 as [|u4 ? l4 ? H4 Hsh5 E4]; subst.
  inversion Hsh5; subst.
  exists u0, u1, u2, u3, u4. split; [by symmetry|].
  split_and!; [by auto| | |by apply H3|by apply H4].
  - intros Hdt'. rewrite decide_True in H1 by done. by apply H1.
  - intros Hdt' Hsa'. rewrite decide_False in H1 by done. by apply H1.
Qed.

Lemma stored_row_shapes_are_fixed_witness :
  ∃ u0 u1 u2 u3 u4,
    buffers (TransitionBuffer.call two_actions tb1_full).2 = [u0; u1; u2; u3; u4]
    ∧ ([1%nat] ≠ [] → row_shape u0 = [1%nat] ∧ row_shape u2 = [1%nat])
    ∧ (np_int64 = np_int64 → row_shape u1 = [1%nat])
    ∧ (np_int64 ≠ np_int64 → @nil nat ≠ [] → row_shape u1 = [])
    ∧ row_shape u3 = [1%nat] ∧ row_shape u4 = [1%nat].
Proof.
  apply (stored_row_shapes_are_fixed Z Z_numeric [1%nat] [] np_int64 "cpu" 1 (tb 1)).
  - vm_compute. reflexivity.
  - apply TransitionBuffer.reach_insert.
    apply tb_reachable_insert_each. constructor.
Defined.

(** ** Insertion followed by sampling *)

Section RoundTrip.
Context {elt : Type} `{!Numeric elt}.
Implicit Types (b : buffer elt).

Lemma tb_growth_shapes ts : ∀ b b',
  wf 5 b → 1 ≤ buffer_size b →
  total_size b + Z.of_nat (length ts) ≤ buffer_size b + 1 →
  row_shape <$> buffers b = TransitionBuffer.row_shapes b →
  Forall (TransitionBuffer.well_shaped b) ts →
  TransitionBuffer.insert_each ts b = (inr (), b') →
  row_shape <$> buffers b' = TransitionBuffer.row_shapes b.
Proof.
  induction ts as [|t ts IH]; intros b b' Hwf Hpos Hle Hshapes Hts.
  { by intros [= <-]. }
  rewrite length_cons, Nat2Z.inj_succ in Hle.
  apply Forall_cons in Hts as [Ht Hts].
  apply tb_well_shaped_items in Ht as [Hc Ht].
  rewrite tb_insert_each_cons, Hc.
  destruct (store_well_shaped (tb_items b t) b)
    as (b1 & Hcall & Hrows); [done|lia|by rewrite Hshapes|].
  rewrite Hcall.
  pose proof (store_params _ _ _ _ Hcall) as Hpar.
  eapply (store_wf 5) in Hcall as [Hwf1 Hok]; [|lia|done..].
  destruct Hok as [_ Htot1]; [done|].
  pose proof Hpar as (_ & _ & _ & _ & Hcap).
  intros Hrest. rewrite <-(tb_row_shapes_params _ _ Hpar).
  eapply IH; [done|lia|lia| | |exact Hrest].
  - by rewrite Hrows, Hshapes, (tb_row_shapes_params _ _ Hpar).
  - eapply Forall_impl; [exact Hts|]. intros t'. by apply tb_well_shaped_params.
Qed.

End RoundTrip.

(** X11. Insertion followed by sampling is a round trip while the
    capacity is not exceeded: on a freshly constructed [TransitionBuffer]
    of capacity at least 1 (or unbounded), inserting at most
    [buffer_size] transitions that convert to the buffer's dtypes and
    have the buffer's shapes succeeds, and [sample(shuffle=False)] then
    returns exactly these transitions, field by field and in insertion
    order, converted to the stored dtypes. *)
Theorem insert_then_sample_returns_the_transitions
    (elt : Type) (N : Numeric elt) ss sa dt dev cap (b0 : buffer elt)
    (ts : list (TransitionBuffer.transition elt)) (rng : nat → nat) :
  TransitionBuffer.init ss sa dt dev cap = inr b0 →
  1 ≤ buffer_size b0 →
  Z.of_nat (length ts) ≤ buffer_size b0 →
  Forall (TransitionBuffer.well_shaped b0) ts →
  ∃ b out,
    TransitionBuffer.insert_each ts b0 = (inr (), b)
    ∧ size b = Z.of_nat (length ts)
    ∧ sample rng None false b = (inr out, b)
    ∧ rows <$> out = TransitionBuffer.columns b0 ts
    ∧ row_shape <$> out = TransitionBuffer.row_shapes b0.
Proof.
  intros Hinit Hpos Hlen Hts.
  pose proof (tb_init_fields _ _ _ _ _ _ Hinit)
    as (_ & _ & _ & _ & Hbufs & _ & _ & Htot).
  pose proof (tb_init_wf _ _ _ _ _ _ Hinit) as Hwf0.
  assert (row_shape <$> buffers b0 = TransitionBuffer.row_shapes b0) as Hsh0.
  { rewrite Hbufs. by rewrite <-list_fmap_compose, list_fmap_id. }
  destruct (tb_growth_returns ts b0) as [b Hrun]; [done|done|lia|done|done|].
  pose proof (tb_growth_shapes ts b0 b Hwf0 Hpos ltac:(lia) Hsh0 Hts Hrun) as Hsh.
  apply tb_append_phase in Hrun as Hgrow; [|done|done|lia].
  destruct Hgrow as (Hrows & Htot' & Hwf & (_ & _ & _ & _ & Hcap)).
  destruct (wf_counters _ _ Hwf) as (_ & Hsize & _); [lia|].
  assert (size b = Z.of_nat (length ts)) as Hsz by lia.
  exists b. eexists. split; [done|]. split; [done|].
  split; [by apply (sample_plain 5)|].
  rewrite <-!list_fmap_compose. split.
  - change (rows ∘ _) with (take (Z.to_nat (size b)) ∘ rows (elt:=elt)).
    rewrite list_fmap_compose, Hrows, Hbufs, Hsz, Nat2Z.id.
    unfold TransitionBuffer.columns. simpl.
    by rewrite !take_ge by (rewrite length_fmap; lia).
  - by change (row_shape ∘ _) with (row_shape (elt:=elt)).
Qed.

Lemma insert_then_sample_returns_the_transitions_witness :
  ∃ b out,
    TransitionBuffer.insert_each (step <$> [0; 1; 2]) (tb 3) = (inr (), b)
    ∧ size b = Z.of_nat (length (step <$> [0; 1; 2]))
    ∧ sample rng0 None false b = (inr out, b)
    ∧ rows <$> out = TransitionBuffer.columns (tb 3) (step <$> [0; 1; 2])
    ∧ row_shape <$> out = TransitionBuffer.row_shapes (tb 3).
Proof.
  apply (insert_then_sample_returns_the_transitions Z Z_numeric
           [1%nat] [] np_int64 "cpu" 3).
  - vm_compute. reflexivity.
  - vm_compute. discriminate.
  - vm_compute. discriminate.
  - examples_well_shaped.
Defined.

(** ** Batches: ragged columns, missing keys, failures on the way *)

Section RaggedBatches.
Context {elt : Type} `{!Numeric elt}.
Implicit Types (b : buffer elt).

Lemma getitem_end {A B} (p : list A) n (k : A → M elt B) b :
  n = length p → (getitem (p ++ []) n ≫= k) b = (inl IndexError, b).
Proof.
  intros ->. unfold mbind, M_bind, getitem.
  rewrite app_nil_r. by rewrite lookup_ge_None_2.
Qed.

Lemma for_each_app {A} (body : A → M elt unit) l1 l2 b :
  for_each body (l1 ++ l2) b =
  match for_each body l1 b with
  | (inl e, b1) => (inl e, b1)
  | (inr _, b1) => for_each body l2 b1
  end.
Proof.
  revert b. induction l1 as [|a l1 IH]; intros b; [done|].
  rewrite <-app_comm_cons, !for_each_cons.
  destruct (body a b) as [[e|[]] b1]; [done|]. apply IH.
Qed.

(** The loop of [insert_batch] on columns of any lengths, started at row
    [length p1]: it inserts the rows that all five columns have, and
    raises [IndexError] when a column ends before [states] does. *)
Lemma tb_ragged_loop : ∀ obs acts nobs rews terms p1 p2 p3 p4 p5 b,
  length p2 = length p1 → length p3 = length p1 →
  length p4 = length p1 → length p5 = length p1 →
  for_each
    (λ i, s ← getitem (p1 ++ obs) i;
          a ← getitem (p2 ++ acts) i;
          s' ← getitem (p3 ++ nobs) i;
          r ← getitem (p4 ++ rews) i;
          d ← getitem (p5 ++ terms) i;
          TransitionBuffer.insert_transition s a s' r d)
    (seq (length p1) (length obs)) b
  = match TransitionBuffer.insert_each
            (TransitionBuffer.bundle_rows obs acts nobs rews terms) b with
    | (inl e, b1) => (inl e, b1)
    | (inr _, b1) =>
        if decide (length (TransitionBuffer.bundle_rows obs acts nobs rews terms)
                   = length obs)
        then (inr (), b1) else (inl IndexError, b1)
    end.
Proof.
  induction obs as [|s obs IH]; intros acts nobs rews terms p1 p2 p3 p4 p5 b
    H2 H3 H4 H5; [done|].
  cbn [length seq for_each]. rewrite bind_run.
  rewrite getitem_middle by done. cbv beta.
  destruct acts as [|a acts];
    [by rewrite getitem_end by done|rewrite getitem_middle by done; cbv beta].
  destruct nobs as [|s' nobs];
    [by rewrite getitem_end by done|rewrite getitem_middle by done; cbv beta].
  destruct rews as [|r rews];
    [by rewrite getitem_end by done|rewrite getitem_middle by done; cbv beta].
  destruct terms as [|d terms];
    [by rewrite getitem_end by done|rewrite getitem_middle by done; cbv beta].
  cbn [TransitionBuffer.bundle_rows].
  unfold TransitionBuffer.insert_each. rewrite for_each_cons.
  change (TransitionBuffer.call (TransitionBuffer.Transition s a s' r d) b)
    with (TransitionBuffer.insert_transition s a s' r d b).
  destruct (TransitionBuffer.insert_transition s a s' r d b) as [[e|[]] b1];
    [done|].
  specialize (IH acts nobs rews terms (p1 ++ [s]) (p2 ++ [a]) (p3 ++ [s'])
                (p4 ++ [r]) (p5 ++ [d]) b1).
  rewrite <-!(assoc_L (++)) in IH. simpl in IH.
  rewrite !length_app in IH. simpl in IH. rewrite !Nat.add_1_r in IH.
  rewrite IH by congruence.
  unfold TransitionBuffer.insert_each. clear IH.
  destruct (for_each TransitionBuffer.call _ b1) as [[e|[]] b2]; [done|].
  cbn [length]. repeat case_decide; done || lia.
Qed.

Lemma tb_insert_batch_ragged obs acts nobs rews terms b :
  TransitionBuffer.insert_batch obs acts nobs rews terms b
  = match TransitionBuffer.insert_each
            (TransitionBuffer.bundle_rows obs acts nobs rews terms) b with
    | (inl e, b1) => (inl e, b1)
    | (inr _, b1) =>
        if decide (length (TransitionBuffer.bundle_rows obs acts nobs rews terms)
                   = length obs)
        then (inr (), b1) else (inl IndexError, b1)
    end.
Proof. by apply (tb_ragged_loop obs acts nobs rews terms [] [] [] [] []). Qed.

Lemma dagger_ragged_loop : ∀ (states actions p1 p2 : list (ndarray elt)) b,
  length p2 = length p1 →
  for_each
    (λ i, s ← getitem (p1 ++ states) i;
          a ← getitem (p2 ++ actions) i;
          DAggerBuffer.insert_transition s a)
    (seq (length p1) (length states)) b
  = match DAggerBuffer.insert_each (zip states actions) b with
    | (inl e, b1) => (inl e, b1)
    | (inr _, b1) =>
        if decide (length (zip states actions) = length states)
        then (inr (), b1) else (inl IndexError, b1)
    end.
Proof.
  induction states as [|s states IH]; intros actions p1 p2 b H2; [done|].
  cbn [length seq for_each]. rewrite bind_run.
  rewrite getitem_middle by done. cbv beta.
  destruct actions as [|a actions];
    [by rewrite getitem_end by done|rewrite getitem_middle by done; cbv beta].
  cbn [zip zip_with].
  unfold DAggerBuffer.insert_each. rewrite for_each_cons.
  change (DAggerBuffer.call (s, a) b) with (DAggerBuffer.insert_transition s a b).
  destruct (DAggerBuffer.insert_transition s a b) as [[e|[]] b1]; [done|].
  specialize (IH actions (p1 ++ [s]) (p2 ++ [a]) b1).
  rewrite <-!(assoc_L (++)) in IH. simpl in IH.
  rewrite !length_app in IH. simpl in IH. rewrite !Nat.add_1_r in IH.
  rewrite IH by congruence.
  unfold DAggerBuffer.insert_each. clear IH.
  destruct (for_each DAggerBuffer.call _ b1) as [[e|[]] b2]; [done|].
  cbn [length]. repeat case_decide; done || lia.
Qed.

End RaggedBatches.

(** X12. [TransitionBuffer.insert_batch] on columns of any lengths runs
    [states.shape[0]] iterations at most: it makes the sequential
    [insert_transition] calls for the rows that all five columns have,
    stopping at the first call that raises; rows of the other columns
    beyond the number of states are ignored, and when a column ends
    before the states do, [IndexError] follows the insertion of the rows
    before, which stay inserted. *)
Theorem insert_batch_stops_at_the_shortest_column
    (elt : Type) (N : Numeric elt)
    (states actions next_states rewards dones : list (ndarray elt))
    (b : buffer elt) :
  TransitionBuffer.insert_batch states actions next_states rewards dones b
  = match TransitionBuffer.insert_each
            (TransitionBuffer.bundle_rows states actions next_states rewards dones)
            b with
    | (inl e, b1) => (inl e, b1)
    | (inr _, b1) =>
        if decide (length (TransitionBuffer.bundle_rows
                             states actions next_states rewards dones)
                   = length states)
        then (inr (), b1) else (inl IndexError, b1)
    end.
Proof.
  by apply (tb_ragged_loop states actions next_states rewards dones [] [] [] [] []).
Qed.

(** X13. [insert_batch] is not atomic: when the rows are inserted one by
    one up to a row whose [insert_transition] raises, [insert_batch]
    raises the same exception and leaves the buffer as that failing call
    left it, with the rows before it inserted and none after it. *)
Theorem insert_batch_keeps_rows_before_a_failure
    (elt : Type) (N : Numeric elt)
    (states actions next_states rewards dones : list (ndarray elt))
    (before after : list (TransitionBuffer.transition elt))
    (t : TransitionBuffer.transition elt) (b b1 b2 : buffer elt) (e : exn) :
  TransitionBuffer.bundle_rows states actions next_states rewards dones
  = before ++ t :: after →
  TransitionBuffer.insert_each before b = (inr (), b1) →
  TransitionBuffer.call t b1 = (inl e, b2) →
  TransitionBuffer.insert_batch states actions next_states rewards dones b
  = (inl e, b2).
Proof.
  intros Hrows Hbefore Hcall. rewrite tb_insert_batch_ragged, Hrows.
  unfold TransitionBuffer.insert_each in *.
  by rewrite for_each_app, Hbefore, for_each_cons, Hcall.
Qed.

Lemma insert_batch_keeps_rows_before_a_failure_witness :
  TransitionBuffer.insert_batch
    [vec [0]; vec [7]; vec [2]] [scalar 0; vec [1; 2]; scalar 0]
    [vec [1]; vec [8]; vec [3]] [scalar 1; scalar 1; scalar 1]
    [scalar 0; scalar 0; scalar 0] (tb 3)
  = (inl RuntimeError, (TransitionBuffer.insert_each [step 0] (tb 3)).2).
Proof.
  apply (insert_batch_keeps_rows_before_a_failure Z Z_numeric _ _ _ _ _
           [step 0] [step 2] two_actions (tb 3)
           (TransitionBuffer.insert_each [step 0] (tb 3)).2).
  - reflexivity.
  - vm_compute. reflexivity.
  - vm_compute. reflexivity.
Defined.

(** X14. [insert_dataset] looks the five keys up before it inserts
    anything: when one of [observations], [actions],
    [next_observations], [rewards], [terminals] is missing it raises
    [KeyError] and the buffer is unchanged, whatever the other columns
    hold. *)
Theorem insert_dataset_missing_key_raises
    (elt : Type) (N : Numeric elt) (dataset : gmap string (list (ndarray elt)))
    (b : buffer elt) (k : string) :
  k ∈ ["observations"; "actions"; "next_observations"; "rewards"; "terminals"] →
  dataset !! k = None →
  TransitionBuffer.insert_dataset dataset b = (inl KeyError, b).
Proof.
  intros Hk Hnone.
  unfold TransitionBuffer.insert_dataset, dict_get. rewrite !bind_run.
  destruct (dataset !! "observations") eqn:H1; [|done].
  destruct (dataset !! "actions") eqn:H2; [|done].
  destruct (dataset !! "next_observations") eqn:H3; [|done].
  destruct (dataset !! "rewards") eqn:H4; [|done].
  destruct (dataset !! "terminals") eqn:H5; [|done].
  exfalso.
  repeat (apply elem_of_cons in Hk as [->|Hk]; [congruence|]).
  by apply elem_of_nil in Hk.
Qed.

Lemma insert_dataset_missing_key_raises_witness :
  TransitionBuffer.insert_dataset no_rewards (tb 3) = (inl KeyError, tb 3).
Proof.
  apply (insert_dataset_missing_key_raises Z Z_numeric no_rewards (tb 3) "rewards").
  - repeat constructor.
  - vm_compute. reflexivity.
Defined.

(** X15. [DAggerBuffer.insert_batch] makes the sequential
    [insert_transition] calls on the pairs [(states[i], actions[i])], in
    order and stopping at the first call that raises; actions beyond the
    number of states are ignored, and when the actions end before the
    states do, [IndexError] follows the insertion of the pairs before. *)
Theorem dagger_insert_batch_is_sequential
    (elt : Type) (N : Numeric elt) (states actions : list (ndarray elt))
    (b : buffer elt) :
  DAggerBuffer.insert_batch states actions b
  = match DAggerBuffer.insert_each (zip states actions) b with
    | (inl e, b1) => (inl e, b1)
    | (inr _, b1) =>
        if decide (length (zip states actions) = length states)
        then (inr (), b1) else (inl IndexError, b1)
    end.
Proof. by apply (dagger_ragged_loop states actions [] []). Qed.

(** ** [DAggerBuffer]: sampling and growth *)

Section DAggerFacts.
Context {elt : Type} `{!Numeric elt}.
Implicit Types (b : buffer elt).

Lemma sample_slots_length rng bs shuffle n :
  0 ≤ bs →
  length (sample_slots rng (Some bs) shuffle n) = (Z.to_nat bs `min` n)%nat.
Proof.
  intros Hbs. unfold sample_slots. rewrite py_slice_to_length by done.
  destruct shuffle; [unfold random_shuffle; rewrite shuffle_from_length|];
    by rewrite length_seq.
Qed.

Lemma gathered_lengths idx (ts out : list (tensor elt)) :
  gathered idx ts out →
  length out = length ts ∧ Forall (λ t, length (rows t) = length idx) out.
Proof.
  intros Hg. split; [symmetry; by eapply Forall2_length|].
  eapply Forall2_Forall_r; [exact Hg|].
  apply Forall_forall. intros u _ u' [_ Hrows].
  symmetry. by eapply Forall2_length.
Qed.

Lemma dagger_insert_each_cons t ts b :
  DAggerBuffer.insert_each (t :: ts) b =
  match DAggerBuffer.call t b with
  | (inl e, b1) => (inl e, b1)
  | (inr _, b1) => DAggerBuffer.insert_each ts b1
  end.
Proof. done. Qed.

Lemma dagger_row_shapes_params b b' :
  same_params b b' → DAggerBuffer.row_shapes b' = DAggerBuffer.row_shapes b.
Proof.
  intros (Hs & Ha & Hdt & _).
  unfold DAggerBuffer.row_shapes, DAggerBuffer.action_row_shape.
  by rewrite Hs, Ha, Hdt.
Qed.

Lemma dagger_well_shaped_params b b' t :
  same_params b b' →
  DAggerBuffer.well_shaped b t → DAggerBuffer.well_shaped b' t.
Proof.
  intros (Hs & Ha & Hdt & _).
  unfold DAggerBuffer.well_shaped, DAggerBuffer.new_transition,
    DAggerBuffer.row_shapes, DAggerBuffer.action_row_shape.
  by rewrite Hs, Ha, Hdt.
Qed.

Lemma dagger_new_transition_data b (t : ndarray elt * ndarray elt) :
  data <$> dagger_items b t
  = [ cast np_float32 <$> data t.1; cast (action_dtype b) <$> data t.2 ].
Proof. unfold dagger_items. simpl. by case_decide. Qed.

(** While [total_size] stays within [buffer_size + 1], well-shaped pairs
    are accepted and added at the end of the two tensors, in order. *)
Lemma dagger_growth ts : ∀ b,
  wf 2 b → 1 ≤ buffer_size b →
  total_size b + Z.of_nat (length ts) ≤ buffer_size b + 1 →
  row_shape <$> buffers b = DAggerBuffer.row_shapes b →
  Forall (DAggerBuffer.well_shaped b) ts →
  ∃ b', DAggerBuffer.insert_each ts b = (inr (), b')
        ∧ rows <$> buffers b'
          = zip_with app (rows <$> buffers b) (DAggerBuffer.columns b ts)
        ∧ row_shape <$> buffers b' = DAggerBuffer.row_shapes b
        ∧ total_size b' = total_size b + Z.of_nat (length ts)
        ∧ wf 2 b' ∧ same_params b b'.
Proof.
  induction ts as [|t ts IH]; intros b Hwf Hpos Hle Hshapes Hts.
  - exists b. split_and!; [done| |done|simpl; lia|done|by repeat split].
    pose proof (wf_fields _ _ Hwf) as Hlen.
    destruct (buffers b) as [|u0 [|u1 [|]]]; simplify_eq/=.
    by rewrite !app_nil_r.
  - rewrite length_cons, Nat2Z.inj_succ in Hle.
    rewrite length_cons, Nat2Z.inj_succ.
    apply Forall_cons in Hts as [Ht Hts].
    apply dagger_well_shaped_items in Ht as [Hc Ht].
    rewrite dagger_insert_each_cons, Hc.
    destruct (store_well_shaped (dagger_items b t) b)
      as (b1 & Hcall & Hrsh); [done|lia|by rewrite Hshapes|].
    rewrite Hcall.
    pose proof (store_params _ _ _ _ Hcall) as Hpar.
    pose proof Hcall as Hrows.
    apply store_append_rows in Hrows; [|by rewrite (wf_fields _ _ Hwf)|lia].
    eapply (store_wf 2) in Hcall as [Hwf1 Hok]; [|lia|done..].
    destruct Hok as [_ Htot1]; [done|].
    pose proof Hpar as (_ & _ & Hdt & _ & Hcap).
    destruct (IH b1) as (b' & Hrun & Hcols & Hsh' & Htot & Hwf' & Hpar');
      [done|lia|lia| | |].
    + by rewrite Hrsh, Hshapes, (dagger_row_shapes_params _ _ Hpar).
    + eapply Forall_impl; [exact Hts|]. intros t'.
      by apply dagger_well_shaped_params.
    + exists b'. split_and!; [done| | |lia|done|].
      * rewrite Hcols, Hrows, zip_with_snoc_data, dagger_new_transition_data.
        unfold DAggerBuffer.columns. rewrite Hdt.
        pose proof (wf_fields _ _ Hwf) as Hlen.
        destruct (buffers b) as [|u0 [|u1 [|]]]; simplify_eq/=.
        by rewrite <-!(assoc_L (++)).
      * by rewrite Hsh', (dagger_row_shapes_params _ _ Hpar).
      * unfold same_params in *. destruct_and!. split_and!; congruence.
Qed.

End DAggerFacts.

(** X16. [DAggerBuffer.sample], with any arguments and in any state the
    buffer can be in, never raises and returns the state and action
    tensors read at one and the same list of distinct slots below
    [size], so states and actions stay paired.  With [batch_size = b >=
    0] each returned tensor has [min(b, size)] rows; with
    [shuffle=False] and no [batch_size] the slots are [0 .. size-1] in
    order. *)
Theorem dagger_sample_keeps_states_and_actions_paired
    (elt : Type) (N : Numeric elt) ss sa dt dev cap (b0 b : buffer elt)
    (rng : nat → nat) (batch_size : option Z) (shuffle : bool) :
  DAggerBuffer.init ss sa dt dev cap = inr b0 →
  DAggerBuffer.reachable b0 b →
  ∃ out,
    sample rng batch_size shuffle b = (inr out, b)
    ∧ length out = 2%nat
    ∧ gathered (sample_slots rng batch_size shuffle (Z.to_nat (size b)))
               (buffers b) out
    ∧ NoDup (sample_slots rng batch_size shuffle (Z.to_nat (size b)))
    ∧ Forall (λ i, Z.of_nat i < size b)
             (sample_slots rng batch_size shuffle (Z.to_nat (size b)))
    ∧ (∀ bs, batch_size = Some bs → 0 ≤ bs →
         Forall (λ t, Z.of_nat (length (rows t)) = Z.min bs (size b)) out)
    ∧ (batch_size = None → shuffle = false →
         sample_slots rng batch_size shuffle (Z.to_nat (size b))
         = seq 0 (Z.to_nat (size b))).
Proof.
  intros Hinit%dagger_init_wf Hreach.
  destruct (dagger_reachable_wf _ _ Hinit Hreach) as [Hwf _].
  pose proof Hwf as [Hsize _]%wf_size_stored.
  destruct (sample_gathered 2 rng batch_size shuffle b Hwf) as (out & Hs & Hg).
  pose proof (gathered_lengths _ _ _ Hg) as [Hlen Hrows].
  exists out. split_and!; [done| |done|apply sample_slots_NoDup| | |].
  - by rewrite Hlen, (wf_fields _ _ Hwf).
  - eapply Forall_impl; [apply sample_slots_bound|]. simpl. lia.
  - intros bs -> Hbs. eapply Forall_impl; [exact Hrows|].
    intros u Hu. cbv beta in Hu. rewrite Hu, sample_slots_length by done. lia.
  - by intros -> ->.
Qed.

Lemma dagger_sample_keeps_states_and_actions_paired_witness :
  ∃ out,
    sample (λ k, k) (Some 2) true
      (DAggerBuffer.insert_each (pair_of <$> [0; 1; 2]) (dg 3)).2
    = (inr out, (DAggerBuffer.insert_each (pair_of <$> [0; 1; 2]) (dg 3)).2)
    ∧ length out = 2%nat
    ∧ gathered
        (sample_slots (λ k, k) (Some 2) true
           (Z.to_nat (size (DAggerBuffer.insert_each (pair_of <$> [0; 1; 2]) (dg 3)).2)))
        (buffers (DAggerBuffer.insert_each (pair_of <$> [0; 1; 2]) (dg 3)).2) out
    ∧ NoDup (sample_slots (λ k, k) (Some 2) true
               (Z.to_nat (size (DAggerBuffer.insert_each
                                  (pair_of <$> [0; 1; 2]) (dg 3)).2)))
    ∧ Forall (λ i, Z.of_nat i
                   < size (DAggerBuffer.insert_each (pair_of <$> [0; 1; 2]) (dg 3)).2)
        (sample_slots (λ k, k) (Some 2) true
           (Z.to_nat (size (DAggerBuffer.insert_each (pair_of <$> [0; 1; 2]) (dg 3)).2)))
    ∧ (∀ bs, Some 2 = Some bs → 0 ≤ bs →
         Forall (λ t, Z.of_nat (length (rows t))
                      = Z.min bs (size (DAggerBuffer.insert_each
                                          (pair_of <$> [0; 1; 2]) (dg 3)).2)) out)
    ∧ (Some 2 = None → true = false →
         sample_slots (λ k, k) (Some 2) true
           (Z.to_nat (size (DAggerBuffer.insert_each (pair_of <$> [0; 1; 2]) (dg 3)).2))
         = seq 0 (Z.to_nat (size (DAggerBuffer.insert_each
                                    (pair_of <$> [0; 1; 2]) (dg 3)).2))).
Proof.
  apply (dagger_sample_keeps_states_and_actions_paired Z Z_numeric
           [1%nat] [] np_int64 "cpu" 3 (dg 3)).
  - vm_compute. reflexivity.
  - apply dagger_reachable_insert_each. constructor.
Defined.

(** X17. A freshly constructed [DAggerBuffer] of capacity at least 1 (or
    unbounded) accepts at most [buffer_size] pairs that convert to the
    buffer's dtypes and have the buffer's shapes, keeps every one of them
    in insertion order, counts them in [size] and [total_size], and
    [sample(shuffle=False)] then returns exactly these states and
    actions, converted to the stored dtypes. *)
Theorem dagger_insert_then_sample_returns_the_pairs
    (elt : Type) (N : Numeric elt) ss sa dt dev cap (b0 : buffer elt)
    (ts : list (ndarray elt * ndarray elt)) (rng : nat → nat) :
  DAggerBuffer.init ss sa dt dev cap = inr b0 →
  1 ≤ buffer_size b0 →
  Z.of_nat (length ts) ≤ buffer_size b0 →
  Forall (DAggerBuffer.well_shaped b0) ts →
  ∃ b out,
    DAggerBuffer.insert_each ts b0 = (inr (), b)
    ∧ rows <$> buffers b = DAggerBuffer.columns b0 ts
    ∧ size b = Z.of_nat (length ts)
    ∧ total_size b = Z.of_nat (length ts)
    ∧ sample rng None false b = (inr out, b)
    ∧ rows <$> out = DAggerBuffer.columns b0 ts
    ∧ row_shape <$> out = DAggerBuffer.row_shapes b0.
Proof.
  intros Hinit Hpos Hlen Hts.
  pose proof (dagger_init_fields _ _ _ _ _ _ Hinit)
    as (_ & _ & _ & _ & Hbufs & _ & _ & Htot).
  pose proof (dagger_init_wf _ _ _ _ _ _ Hinit) as Hwf0.
  assert (row_shape <$> buffers b0 = DAggerBuffer.row_shapes b0) as Hsh0.
  { rewrite Hbufs. by rewrite <-list_fmap_compose, list_fmap_id. }
  destruct (dagger_growth ts b0)
    as (b & Hrun & Hrows & Hsh & Htot' & Hwf & (_ & _ & _ & _ & Hcap));
    [done|done|lia|done|done|].
  destruct (wf_counters _ _ Hwf) as (_ & Hsize & _); [lia|].
  assert (size b = Z.of_nat (length ts)) as Hsz by lia.
  assert (rows <$> buffers b = DAggerBuffer.columns b0 ts) as Hcols.
  { rewrite Hrows, Hbufs. by destruct ts. }
  exists b. eexists. split_and!; [done|done|done|lia|by apply (sample_plain 2)| |].
  - rewrite <-list_fmap_compose.
    change (rows ∘ _) with (take (Z.to_nat (size b)) ∘ rows (elt:=elt)).
    rewrite list_fmap_compose, Hcols, Hsz, Nat2Z.id.
    unfold DAggerBuffer.columns. simpl.
    by rewrite !take_ge by (rewrite length_fmap; lia).
  - rewrite <-list_fmap_compose.
    by change (row_shape ∘ _) with (row_shape (elt:=elt)).
Qed.

Lemma dagger_insert_then_sample_returns_the_pairs_witness :
  ∃ b out,
    DAggerBuffer.insert_each (pair_of <$> [0; 1; 2]) (dg 3) = (inr (), b)
    ∧ rows <$> buffers b = DAggerBuffer.columns (dg 3) (pair_of <$> [0; 1; 2])
    ∧ size b = Z.of_nat (length (pair_of <$> [0; 1; 2]))
    ∧ total_size b = Z.of_nat (length (pair_of <$> [0; 1; 2]))
    ∧ sample rng0 None false b = (inr out, b)
    ∧ rows <$> out = DAggerBuffer.columns (dg 3) (pair_of <$> [0; 1; 2])
    ∧ row_shape <$> out = DAggerBuffer.row_shapes (dg 3).
Proof.
  apply (dagger_insert_then_sample_returns_the_pairs Z Z_numeric
           [1%nat] [] np_int64 "cpu" 3).
  - vm_compute. reflexivity.
  - vm_compute. discriminate.
  - vm_compute. discriminate.
  - examples_well_shaped.
Defined.

(** ** Capacity 0 after the first call *)

Section ZeroCapacity.
Context {elt : Type} `{!Numeric elt}.
Implicit Types (b : buffer elt) (news : list (ndarray elt)).

Lemma store_zero_capacity_grows news b :
  buffer_size b = 0 → total_size b = 0 →
  length (buffers b) = length news →
  ∃ e b', store news b = (inl e, b')
          ∧ ptr b' = ptr b ∧ size b' = size b ∧ total_size b' = 0
          ∧ (shape <$> news = row_shape <$> buffers b →
             e = ZeroDivisionError ∧ ∀ n, leading b n → leading b' (S n)).
Proof.
  intros Hcap Htot Hlen. rewrite store_eq, decide_True by lia.
  destruct (append_all news b) as [[e|[]] b1] eqn:Happ.
  - pose proof Happ as ->%append_all_raise.
    exists e, b. split_and!; [done..|]. intros Hshape.
    assert (Forall2 (λ u x, shape x = row_shape u) (buffers b) news) as Hall.
    { apply Forall2_same_length_lookup_2; [done|]. intros i u x Hu Hx.
      apply (f_equal (λ l, l !! i)) in Hshape.
      rewrite !list_lookup_fmap, Hu, Hx in Hshape. by simplify_eq/=. }
    rewrite append_all_zip in Happ by done.
    destruct (cat_all_same_shape _ _ Hall) as [bs Hbs].
    by rewrite Hbs in Happ.
  - pose proof Happ as (bs & -> & _)%append_all_ok.
    unfold advance, py_mod. simpl. rewrite decide_True by done.
    eexists _, _. split_and!; [done..|]. intros _. split; [done|].
    intros n Hn. by destruct (append_all_leading news b _ n Hlen Hn Happ).
Qed.

End ZeroCapacity.

(** X18. A buffer of either class constructed with [buffer_size = 0]
    never accepts an insertion: in every state calls can bring it to,
    [insert_transition] raises and [ptr], [size] and [total_size] stay 0,
    so that [sample] never returns a row.  Yet each call whose items
    convert to the dtypes of the buffer and have, converted, the shapes of
    the stored rows raises [ZeroDivisionError] only after it has added one
    row to every tensor: the storage grows with every such call. *)
Theorem zero_capacity_buffer_grows_but_stays_empty :
  (∀ (elt : Type) (N : Numeric elt) ss sa dt dev (b0 b : buffer elt) t,
     TransitionBuffer.init ss sa dt dev 0 = inr b0 →
     TransitionBuffer.reachable b0 b →
     ∃ e b', TransitionBuffer.call t b = (inl e, b')
             ∧ ptr b' = 0 ∧ size b' = 0 ∧ total_size b' = 0
             ∧ (∀ news,
                  TransitionBuffer.new_transition b
                    (TransitionBuffer.t_state t) (TransitionBuffer.t_action t)
                    (TransitionBuffer.t_next_state t)
                    (TransitionBuffer.t_reward t) (TransitionBuffer.t_done t)
                  = inr news →
                  shape <$> news = row_shape <$> buffers b →
                  e = ZeroDivisionError ∧ ∀ n, leading b n → leading b' (S n)))
  ∧ (∀ (elt : Type) (N : Numeric elt) ss sa dt dev (b0 b : buffer elt) t,
     DAggerBuffer.init ss sa dt dev 0 = inr b0 →
     DAggerBuffer.reachable b0 b →
     ∃ e b', DAggerBuffer.call t b = (inl e, b')
             ∧ ptr b' = 0 ∧ size b' = 0 ∧ total_size b' = 0
             ∧ (∀ news,
                  DAggerBuffer.new_transition b t.1 t.2 = inr news →
                  shape <$> news = row_shape <$> buffers b →
                  e = ZeroDivisionError ∧ ∀ n, leading b n → leading b' (S n))).
Proof.
  split; intros elt N ss sa dt dev b0 b t Hinit Hreach.
  - pose proof (tb_init_fields _ _ _ _ _ _ Hinit) as (_ & _ & _ & Hcap0 & _).
    simpl in Hcap0. apply tb_init_wf in Hinit.
    destruct (tb_reachable_wf _ _ Hinit Hreach) as [Hwf (_ & _ & _ & _ & Hc)].
    destruct (wf_stuck _ _ Hwf) as (Hsize & Htot & Hptr); [lia|].
    destruct (tb_call_cases t b) as [(e & Hn & ->)|[Hn ->]].
    { exists e, b. split_and!; [done..|]. intros news Hnews. congruence. }
    destruct (store_zero_capacity_grows (tb_items b t) b)
      as (e & b' & -> & Hp & Hs & Ht & Hgrow);
      [lia|done|by rewrite (wf_fields _ _ Hwf)|].
    exists e, b'. split_and!; [done|lia|lia|done|].
    intros news Hnews. rewrite Hn in Hnews. injection Hnews as <-. exact Hgrow.
  - pose proof (dagger_init_fields _ _ _ _ _ _ Hinit) as (_ & _ & _ & Hcap0 & _).
    simpl in Hcap0. apply dagger_init_wf in Hinit.
    destruct (dagger_reachable_wf _ _ Hinit Hreach) as [Hwf (_ & _ & _ & _ & Hc)].
    destruct (wf_stuck _ _ Hwf) as (Hsize & Htot & Hptr); [lia|].
    destruct (dagger_call_cases t b) as [(e & Hn & ->)|[Hn ->]].
    { exists e, b. split_and!; [done..|]. intros news Hnews. congruence. }
    destruct (store_zero_capacity_grows (dagger_items b t) b)
      as (e & b' & -> & Hp & Hs & Ht & Hgrow);
      [lia|done|by rewrite (wf_fields _ _ Hwf)|].
    exists e, b'. split_and!; [done|lia|lia|done|].
    intros news Hnews. rewrite Hn in Hnews. injection Hnews as <-. exact Hgrow.
Qed.

Lemma zero_capacity_buffer_grows_but_stays_empty_witness :
  ∃ e b', TransitionBuffer.call (step 1) (TransitionBuffer.call (step 0) (tb 0)).2
          = (inl e, b')
          ∧ ptr b' = 0 ∧ size b' = 0 ∧ total_size b' = 0
          ∧ (∀ news,
               TransitionBuffer.new_transition
                 (TransitionBuffer.call (step 0) (tb 0)).2
                 (TransitionBuffer.t_state (step 1))
                 (TransitionBuffer.t_action (step 1))
                 (TransitionBuffer.t_next_state (step 1))
                 (TransitionBuffer.t_reward (step 1))
                 (TransitionBuffer.t_done (step 1)) = inr news →
               shape <$> news
               = row_shape <$> buffers (TransitionBuffer.call (step 0) (tb 0)).2 →
               e = ZeroDivisionError
             ∧ ∀ n, leading (TransitionBuffer.call (step 0) (tb 0)).2 n →
                    leading b' (S n)).
Proof.
  apply (proj1 zero_capacity_buffer_grows_but_stays_empty Z Z_numeric
           [1%nat] [] np_int64 "cpu" (tb 0)).
  - vm_compute. reflexivity.
  - apply TransitionBuffer.reach_insert. constructor.
Defined.

(** ** [DAggerBuffer]: the overwriting branch *)

(** X19. Once a [DAggerBuffer] of capacity at least 1 holds more pairs
    than its capacity, an [insert_transition] call whose state and action
    convert to the dtypes of the buffer and have, converted, the row
    shapes of the stored tensors returns, and has replaced row
    [ptr = total_size mod buffer_size] of both tensors by the converted
    state and action; every other row is as before and [size] stays at
    [buffer_size]. *)
Theorem dagger_overwrite_replaces_the_pointed_row
    (elt : Type) (N : Numeric elt) ss sa dt dev cap (b0 b : buffer elt)
    (t : ndarray elt * ndarray elt) (news : list (ndarray elt)) :
  DAggerBuffer.init ss sa dt dev cap = inr b0 →
  DAggerBuffer.reachable b0 b →
  1 ≤ buffer_size b →
  buffer_size b < total_size b →
  DAggerBuffer.new_transition b t.1 t.2 = inr news →
  shape <$> news = row_shape <$> buffers b →
  ∃ b', DAggerBuffer.call t b = (inr (), b')
        ∧ ptr b = total_size b `mod` buffer_size b
        ∧ rows <$> buffers b'
          = zip_with (λ rs x, <[Z.to_nat (ptr b) := data x]> rs)
              (rows <$> buffers b) news
        ∧ row_shape <$> buffers b' = row_shape <$> buffers b
        ∧ size b' = buffer_size b
        ∧ total_size b' = total_size b + 1.
Proof.
  intros Hinit%dagger_init_wf Hreach Hpos Hgt Hnews Hshape.
  destruct (dagger_reachable_wf _ _ Hinit Hreach) as [Hwf _].
  pose proof Hwf as [Hf (n & Hn & Hn1 & _) Hc _].
  destruct (Hc Hpos) as (Htot & Hsize & Hptr). specialize (Hn1 Hpos).
  assert (0 ≤ ptr b < Z.of_nat n) as Hin.
  { rewrite Hptr. pose proof (Z.mod_pos_bound (total_size b) (buffer_size b)). lia. }
  rewrite dagger_call_eq, Hnews, store_eq, decide_False by lia.
  apply dagger_new_transition_inr in Hnews as ->.
  unfold dagger_items in *.
  unfold leading in Hn.
  destruct (buffers b) as [|u0 [|u1 [|]]] eqn:Hb; simplify_eq/=.
  repeat match goal with H : Forall _ (_ :: _) |- _ =>
    apply Forall_cons in H as [? H] end.
  unfold mbind, M_bind, get_self, lift, set_buffers. simpl.
  repeat (rewrite setitem_same_shape by (done || lia); simpl).
  unfold advance, py_mod. simpl. rewrite decide_False by lia.
  eexists. split; [done|]. simpl. rewrite Hb. simpl.
  split_and!; [done|done|done|lia|done].
Qed.

Lemma dagger_overwrite_replaces_the_pointed_row_witness :
  ∃ b', DAggerBuffer.call (pair_of 5)
          (DAggerBuffer.insert_each (pair_of <$> [0; 1; 2; 3; 4]) (dg 3)).2
        = (inr (), b')
        ∧ ptr (DAggerBuffer.insert_each (pair_of <$> [0; 1; 2; 3; 4]) (dg 3)).2
          = total_size (DAggerBuffer.insert_each (pair_of <$> [0; 1; 2; 3; 4]) (dg 3)).2
            `mod` buffer_size (DAggerBuffer.insert_each
                                 (pair_of <$> [0; 1; 2; 3; 4]) (dg 3)).2
        ∧ rows <$> buffers b'
          = zip_with (λ rs x,
                        <[Z.to_nat (ptr (DAggerBuffer.insert_each
                                           (pair_of <$> [0; 1; 2; 3; 4]) (dg 3)).2)
                          := data x]> rs)
              (rows <$> buffers (DAggerBuffer.insert_each
                                   (pair_of <$> [0; 1; 2; 3; 4]) (dg 3)).2)
              [vec [5]; vec [0]]
        ∧ row_shape <$> buffers b'
          = row_shape <$> buffers (DAggerBuffer.insert_each
                                     (pair_of <$> [0; 1; 2; 3; 4]) (dg 3)).2
        ∧ size b' = buffer_size (DAggerBuffer.insert_each
                                   (pair_of <$> [0; 1; 2; 3; 4]) (dg 3)).2
        ∧ total_size b'
          = total_size (DAggerBuffer.insert_each
                          (pair_of <$> [0; 1; 2; 3; 4]) (dg 3)).2 + 1.
Proof.
  apply (dagger_overwrite_replaces_the_pointed_row Z Z_numeric
           [1%nat] [] np_int64 "cpu" 3 (dg 3)
           (DAggerBuffer.insert_each (pair_of <$> [0; 1; 2; 3; 4]) (dg 3)).2
           (pair_of 5)).
  - vm_compute. reflexivity.
  - apply dagger_reachable_insert_each. constructor.
  - vm_compute. discriminate.
  - vm_compute. reflexivity.
  - vm_compute. reflexivity.
  - vm_compute. reflexivity.
Defined.
